(** * split_vcd: splitting a VCD waveform dump at a time boundary

    Shallow embedding of [scripts/ibex/split_vcd.py] and the properties of
    its header scan, its temporal routing loop and its output assembly.

    Conventions of the model:
    - a Python [str] is a [string]; each character is the code point of the
      same number, so the model covers lines over code points 0..255;
    - a Python [int] is a [Z];
    - [lines] is the value returned by [f.readlines()];
    - each file opened for writing is the text written to it so far, and
      the two output files are two such texts;
    - the three [print] calls that end [split_vcd] write to standard output
      only and are left out. *)

From Stdlib Require Import ZArith NArith List Bool Lia Sorted.
From Stdlib Require Import Strings.Ascii Strings.String.
Import ListNotations.

Open Scope string_scope.
Open Scope Z_scope.
Open Scope list_scope.

(** ** The string built-ins the script calls *)

Module PyStr.

(** [s.startswith(p)] *)
Definition startswith (s p : string) : bool := String.prefix p s.

(** [p in s]: [p] occurs in [s] as a contiguous substring. *)
Fixpoint contains (p s : string) : bool :=
  String.prefix p s ||
  match s with
  | EmptyString => false
  | String _ s' => contains p s'
  end.

(** [s[1:]] *)
Definition slice_from_1 (s : string) : string :=
  match s with
  | EmptyString => EmptyString
  | String _ s' => s'
  end.

(** [str.isspace] on one character, for code points below 256:
    TAB, LF, VT, FF, CR, FS, GS, RS, US, SPACE, NEL and NBSP. *)
Definition isspace (c : ascii) : bool :=
  let n := N_of_ascii c in
  (((9 <=? n) && (n <=? 13)) || ((28 <=? n) && (n <=? 32)) ||
   (n =? 133) || (n =? 160))%N.

Fixpoint lstrip (s : string) : string :=
  match s with
  | EmptyString => EmptyString
  | String c s' => if isspace c then lstrip s' else s
  end.

Fixpoint rstrip (s : string) : string :=
  match s with
  | EmptyString => EmptyString
  | String c s' =>
      match rstrip s' with
      | EmptyString => if isspace c then EmptyString else String c EmptyString
      | r => String c r
      end
  end.

(** [s.strip()] *)
Definition strip (s : string) : string := rstrip (lstrip s).

(** What a call that may raise gives back. The only exception the script
    can meet inside its [try] is the [ValueError] of [int]. *)
Inductive exn : Type := ValueError.

Inductive result (A : Type) : Type :=
| Returns (a : A)
| Raises (e : exn).
Arguments Returns {A} a.
Arguments Raises {A} e.

Definition digit_value (c : ascii) : option Z :=
  let n := N_of_ascii c in
  if ((48 <=? n) && (n <=? 57))%N then Some (Z.of_N n - 48) else None.

Definition is_underscore (c : ascii) : bool := (N_of_ascii c =? 95)%N.

(** The digit scan of [int]: decimal digits, with single underscores
    allowed between two digits. [acc] is the value read so far, [n] the
    number of digits read so far and [prev_us] tells that the previous
    character was an underscore. *)
Fixpoint scan_digits (acc : Z) (n : nat) (prev_us : bool) (s : string)
  : option (Z * nat) :=
  match s with
  | EmptyString => if prev_us then None else Some (acc, n)
  | String c s' =>
      if is_underscore c then
        if prev_us then None else scan_digits acc n true s'
      else
        match digit_value c with
        | Some d => scan_digits (10 * acc + d) (S n) false s'
        | None => None
        end
  end.

(** Default of [sys.get_int_max_str_digits()]: [int] refuses a decimal
    literal with more digits. *)
Definition int_max_str_digits : nat := 4300.

(** [int(s)] for an [s] that has no white space at either end, which is
    what [strip] hands over: an optional sign, then at least one digit.
    Everything else raises [ValueError]. *)
Definition int (s : string) : result Z :=
  let '(sign, body) :=
    match s with
    | String "+" r => (1, r)
    | String "-" r => (-1, r)
    | _ => (1, s)
    end in
  match body with
  | EmptyString => Raises ValueError
  | String c _ =>
      if is_underscore c then Raises ValueError
      else
        match scan_digits 0 0 false body with
        | Some (v, n) =>
            if (int_max_str_digits <? n)%nat then Raises ValueError
            else Returns (sign * v)
        | None => Raises ValueError
        end
  end.

End PyStr.

Import PyStr.

(** ** Header scan (lines 21-32 of the script) *)

Definition has_dumpvars (line : string) : bool := contains "$dumpvars" line.
Definition has_end (line : string) : bool := contains "$end" line.

(** The [for i, line in enumerate(lines)] loop. [i] is the index of the head
    of [lines]; the result is the final value of [header_end]. Falling off
    the end of the list leaves [header_end] at its initial 0. *)
Fixpoint scan_header (i : nat) (in_dumpvars : bool) (lines : list string)
  : nat :=
  match lines with
  | [] => 0%nat
  | line :: rest =>
      let in_dumpvars := if has_dumpvars line then true else in_dumpvars in
      if in_dumpvars && has_end line then S i
      else scan_header (S i) in_dumpvars rest
  end.

Definition header_end (lines : list string) : nat :=
  scan_header 0 false lines.

(** [lines[:header_end]] and [lines[header_end:]] *)
Definition header (lines : list string) : list string :=
  firstn (header_end lines) lines.

Definition data (lines : list string) : list string :=
  skipn (header_end lines) lines.

(** ** Temporal routing loop (lines 34-54 of the script) *)

Record state : Type := mkState {
  data1 : list string;
  data2 : list string;
  current_time : Z;
  split_occurred : bool
}.

Definition init : state :=
  {| data1 := []; data2 := []; current_time := 0; split_occurred := false |}.

(** The [if line.startswith('#'): try: ... except: pass] block: the value of
    [current_time] after it. *)
Definition advance (current_time : Z) (line : string) : Z :=
  if startswith line "#" then
    match int (strip (slice_from_1 line)) with
    | Returns t => t
    | Raises _ => current_time
    end
  else current_time.

(** One iteration of [for line in data]. *)
Definition step (split_time_ps : Z) (st : state) (line : string) : state :=
  let current_time := advance (current_time st) line in
  if current_time <=? split_time_ps then
    {| data1 := data1 st ++ [line];
       data2 := data2 st;
       current_time := current_time;
       split_occurred := split_occurred st |}
  else
    {| data1 := data1 st;
       data2 := data2 st ++ [line];
       current_time := current_time;
       split_occurred := true |}.

Definition run (split_time_ps : Z) (st : state) (body : list string) : state :=
  fold_left (step split_time_ps) body st.

Definition route (split_time_ps : Z) (body : list string) : state :=
  run split_time_ps init body.

(** ** Output assembly (lines 56-64 of the script) *)

(** [f.write(s)] and [f.writelines(ls)] on the text written so far. *)
Definition write (f : string) (s : string) : string := (f ++ s)%string.

Definition writelines (f : string) (ls : list string) : string :=
  fold_left write ls f.

Record outputs : Type := mkOutputs {
  output1 : string;
  output2 : string
}.

Definition split_vcd (lines : list string) (split_time_ps : Z) : outputs :=
  let header := header lines in
  let st := route split_time_ps (data lines) in
  {| output1 := writelines (writelines EmptyString header) (data1 st);
     output2 := writelines (writelines EmptyString header) (data2 st) |}.

(** ** Vocabulary of the properties *)

(** The value a line sets the clock to, when it is a timestamp line that
    parses. *)
Definition line_time (line : string) : option Z :=
  if startswith line "#" then
    match int (strip (slice_from_1 line)) with
    | Returns t => Some t
    | Raises _ => None
    end
  else None.

(** A line that leaves the clock alone: a value change, or a [#] line that
    does not parse. *)
Definition not_timestamp (l : string) : Prop := line_time l = None.

(** The timestamp values of a body, in order. *)
Fixpoint timestamps (body : list string) : list Z :=
  match body with
  | [] => []
  | l :: r =>
      match line_time l with
      | Some t => t :: timestamps r
      | None => timestamps r
      end
  end.

(** The first timestamp value of a body, if it has one. *)
Definition first_timestamp (body : list string) : option Z :=
  hd_error (timestamps body).

(** Timestamp values that never go backwards. *)
Definition nondecreasing (ts : list Z) : Prop := Sorted Z.le ts.

(** What the loop appends to [data1] and to [data2], and the clock it ends
    with, as functions of the clock [c] it enters [body] with. *)
Fixpoint before_from (T c : Z) (body : list string) : list string :=
  match body with
  | [] => []
  | l :: r =>
      let c' := advance c l in
      if c' <=? T then l :: before_from T c' r else before_from T c' r
  end.

Fixpoint after_from (T c : Z) (body : list string) : list string :=
  match body with
  | [] => []
  | l :: r =>
      let c' := advance c l in
      if c' <=? T then after_from T c' r else l :: after_from T c' r
  end.

Fixpoint time_after (c : Z) (body : list string) : Z :=
  match body with
  | [] => c
  | l :: r => time_after (advance c l) r
  end.

(** [a] and [b] are complementary subsequences of [l]: every element of [l]
    goes to exactly one of them, and both keep the order of [l]. *)
Inductive Interleaved {A : Type} : list A -> list A -> list A -> Prop :=
| Interleaved_nil : Interleaved [] [] []
| Interleaved_left x a b l :
    Interleaved a b l -> Interleaved (x :: a) b (x :: l)
| Interleaved_right x a b l :
    Interleaved a b l -> Interleaved a (x :: b) (x :: l).

(** Line [j] holds the dumpvars marker; line [i] holds the end marker. *)
Definition dumpvars_at (lines : list string) (j : nat) : Prop :=
  match nth_error lines j with
  | Some l => has_dumpvars l = true
  | None => False
  end.

Definition end_at (lines : list string) (i : nat) : Prop :=
  match nth_error lines i with
  | Some l => has_end l = true
  | None => False
  end.

(** Line [i] holds an end marker and a dumpvars marker has been seen by
    then, on an earlier line or on line [i] itself. *)
Definition closes (lines : list string) (i : nat) : Prop :=
  end_at lines i /\ exists j, (j <= i)%nat /\ dumpvars_at lines j.

(** The same with the dumpvars marker on a strictly earlier line. *)
Definition closes_later (lines : list string) (i : nat) : Prop :=
  end_at lines i /\ exists j, (j < i)%nat /\ dumpvars_at lines j.

(** [closes] for the loop entered with the flag [in_dumpvars] already set or
    not. *)
Definition closes_from (flag : bool) (lines : list string) (i : nat) : Prop :=
  end_at lines i /\
  (flag = true \/ exists j, (j <= i)%nat /\ dumpvars_at lines j).

(** The text a list of lines makes when written one after the other. *)
Definition text (ls : list string) : string :=
  fold_right String.append EmptyString ls.

(** ** Sample inputs *)

Definition nl : string := String "010"%char EmptyString.

(** A line of text with its line terminator. *)
Definition ln (s : string) : string := (s ++ nl)%string.

Definition body_100_200 : list string :=
  [ln "#100"; ln "1!"; ln "#200"; ln "1!"].

Definition body_three_groups : list string :=
  [ln "0!"; ln "#100"; ln "1!"; ln "#200"; ln "0!"; ln "#300"; ln "1!"].

(** A value change in front of two negative timestamps. *)
Definition body_negative : list string := [ln "1!"; ln "#-5"; ln "#-4"].

(** A file whose header ends with a dumpvars section of several lines. *)
Definition lines_small_vcd : list string :=
  [ln "$scope module top $end"; ln "$var wire 1 ! clk $end";
   ln "$upscope $end"; ln "$enddefinitions $end";
   ln "$dumpvars"; ln "0!"; ln "$end";
   ln "#0"; ln "1!"; ln "#5"; ln "0!"].

(** A dumpvars section opened and closed on one line, and an end marker
    further down. *)
Definition lines_same_line_close : list string :=
  [ln "$dumpvars 0! $end"; ln "#0"; ln "$comment done $end"; ln "#5"].

(** A dumpvars section that is never closed. *)
Definition lines_unclosed : list string :=
  [ln "$var wire 1 ! clk $end"; ln "$dumpvars"; ln "0!"; ln "#5"; ln "1!"].

(** A body whose timestamps go backwards. *)
Definition body_backwards : list string :=
  [ln "#300"; ln "a"; ln "#100"; ln "b"; ln "#200"; ln "c"].

(** ** Reading and writing text files (lines 18-19 and 56-64 of the script) *)

Definition is_newline (c : ascii) : bool := (N_of_ascii c =? 10)%N.

Definition is_return (c : ascii) : bool := (N_of_ascii c =? 13)%N.

Definition LF : ascii := "010"%char.

Definition CR : ascii := "013"%char.

(** The newline translation of a file opened with [open(path, 'r')]: a CR
    is read as LF, and an LF that comes right behind a CR is dropped, so
    that CR LF and a lone CR both read as one LF. [after_cr] tells that the
    previous character was a CR. *)
Fixpoint translate_newlines (after_cr : bool) (s : string) : string :=
  match s with
  | EmptyString => EmptyString
  | String c s' =>
      if is_return c then String LF (translate_newlines true s')
      else if is_newline c && after_cr then translate_newlines false s'
      else String c (translate_newlines false s')
  end.

Definition universal_newlines (s : string) : string :=
  translate_newlines false s.

(** The lines of a text: it is cut behind every LF, each line keeps its LF,
    and a last line without LF is kept as it is. *)
Fixpoint split_lines (s : string) : list string :=
  match s with
  | EmptyString => []
  | String c s' =>
      if is_newline c then String c EmptyString :: split_lines s'
      else
        match split_lines s' with
        | [] => [String c EmptyString]
        | l :: ls => String c l :: ls
        end
  end.

(** [f.readlines()] on a file opened with [open(path, 'r')], given the
    decoded text the file holds: the line ends are translated, then the
    text is cut into lines. *)
Definition readlines (s : string) : list string :=
  split_lines (universal_newlines s).

(** The line separator of the platform, [os.linesep]. *)
Inductive linesep : Type :=
| SepLF
| SepCRLF.

(** The text a file opened with [open(path, 'w')] holds once [txt] was
    written to it: every LF is stored as the line separator of the
    platform, everything else as it is. *)
Fixpoint stored (sep : linesep) (txt : string) : string :=
  match txt with
  | EmptyString => EmptyString
  | String c s' =>
      if is_newline c then
        match sep with
        | SepLF => String c (stored sep s')
        | SepCRLF => String CR (String c (stored sep s'))
        end
      else String c (stored sep s')
  end.

(** ** Vocabulary of the further properties *)

(** The place of the line the header scan breaks at, counted from the head
    of [lines], when it breaks. *)
Fixpoint closing_index (flag : bool) (lines : list string) : option nat :=
  match lines with
  | [] => None
  | line :: rest =>
      let flag' := if has_dumpvars line then true else flag in
      if flag' && has_end line then Some 0%nat
      else option_map S (closing_index flag' rest)
  end.

(** The lines of [body] at which the clock satisfies [P], for the loop
    entered with clock [c]. *)
Fixpoint pick (P : Z -> bool) (c : Z) (body : list string) : list string :=
  match body with
  | [] => []
  | l :: r =>
      let c' := advance c l in
      if P c' then l :: pick P c' r else pick P c' r
  end.

Fixpoint all_space (s : string) : bool :=
  match s with
  | EmptyString => true
  | String c s' => isspace c && all_space s'
  end.

(** [s] holds no CR. *)
Fixpoint no_return (s : string) : bool :=
  match s with
  | EmptyString => true
  | String c s' => negb (is_return c) && no_return s'
  end.

Fixpoint no_newline (s : string) : bool :=
  match s with
  | EmptyString => true
  | String c s' => negb (is_newline c) && no_newline s'
  end.

(** [s] is a complete line: it ends with its only LF. *)
Fixpoint ends_line (s : string) : bool :=
  match s with
  | EmptyString => false
  | String c s' => if is_newline c then (s' =? "")%string else ends_line s'
  end.

(** [s] is a last line without LF. *)
Definition open_line (s : string) : bool :=
  no_newline s && negb (s =? "")%string.

(** A list of lines as [split_lines] gives them: complete lines, the last
    of which may lack its LF. *)
Fixpoint lines_wf (ls : list string) : bool :=
  match ls with
  | [] => true
  | l :: r =>
      match r with
      | [] => ends_line l || open_line l
      | _ :: _ => ends_line l && lines_wf r
      end
  end.

(** ** Checks of the string built-ins on sample lines *)

Example int_examples :
  int "100" = Returns 100 /\ int "-5" = Returns (-5) /\
  int "+7" = Returns 7 /\ int "1_000" = Returns 1000 /\
  int "007" = Returns 7 /\
  int "" = Raises ValueError /\ int "abc" = Raises ValueError /\
  int "-" = Raises ValueError /\ int "_1" = Raises ValueError /\
  int "1_" = Raises ValueError /\ int "1__0" = Raises ValueError /\
  int "1 2" = Raises ValueError /\ int "0x10" = Raises ValueError.
Proof. repeat split; reflexivity. Qed.

Example strip_examples :
  strip (ln "100") = "100" /\ strip ("  12 " ++ nl)%string = "12" /\
  strip (ln "") = "" /\ strip "a b" = "a b".
Proof. repeat split; reflexivity. Qed.

Example line_time_examples :
  line_time (ln "#100") = Some 100 /\ line_time (ln "# 42 ") = Some 42 /\
  line_time (ln "#abc") = None /\ line_time (ln "#") = None /\
  line_time (ln "1!") = None /\ line_time (ln " #5") = None.
Proof. repeat split; reflexivity. Qed.

Example readlines_examples :
  readlines (String "a" (String CR (String LF
               (String "b" (String CR (String "c" EmptyString)))))) =
    [ln "a"; ln "b"; "c"] /\
  readlines (String CR (String CR (String LF EmptyString))) = [nl; nl] /\
  readlines (stored SepLF (String "a" (String CR (ln "b")))) =
    [ln "a"; ln "b"] /\
  readlines (stored SepCRLF (text body_100_200)) = body_100_200 /\
  readlines EmptyString = [].
Proof. repeat split; reflexivity. Qed.

(** [startswith] and [contains] against what they stand for: [p] is at the
    front of [s], and [p] is somewhere inside [s]. *)
Lemma startswith_spec p : forall s,
  startswith s p = true <-> exists b, s = (p ++ b)%string.
Proof.
  unfold startswith.
  induction p as [|x p IH]; intros s; simpl.
  - destruct s; split; eauto.
  - destruct s as [|y s]; simpl.
    + split; [discriminate|]. intros [b Hb]. discriminate.
    + destruct (ascii_dec x y) as [->|Hxy].
      * rewrite IH. split; intros [b Hb]; exists b; congruence.
      * split; [discriminate|]. intros [b Hb]. congruence.
Qed.

Lemma contains_spec p : forall s,
  contains p s = true <-> exists a b, s = (a ++ p ++ b)%string.
Proof.
  induction s as [|y s IH]; cbn [contains].
  - rewrite orb_false_r. fold (startswith "" p). rewrite startswith_spec.
    split.
    + intros [b Hb]. now exists EmptyString, b.
    + intros (a & b & H). destruct a; [now exists b|discriminate].
  - rewrite orb_true_iff, IH. fold (startswith (String y s) p).
    rewrite startswith_spec. split.
    + intros [[b Hb]|(a & b & H)].
      * now exists EmptyString, b.
      * exists (String y a), b. simpl. now rewrite H.
    + intros (a & b & H). destruct a as [|x a]; simpl in H.
      * left. now exists b.
      * right. exists a, b. congruence.
Qed.

(** ** Basic facts about the loop *)

Section Loop.

Variable T : Z.

Lemma advance_line_time c l :
  advance c l = match line_time l with Some t => t | None => c end.
Proof.
  unfold advance, line_time.
  destruct (startswith l "#"); [|reflexivity].
  destruct (int _); reflexivity.
Qed.

Lemma advance_timestamp c l t : line_time l = Some t -> advance c l = t.
Proof. intros H. rewrite advance_line_time, H. reflexivity. Qed.

Lemma advance_other c l : line_time l = None -> advance c l = c.
Proof. intros H. rewrite advance_line_time, H. reflexivity. Qed.

Lemma run_app st a b : run T st (a ++ b) = run T (run T st a) b.
Proof. apply fold_left_app. Qed.

Lemma run_cons st l r : run T st (l :: r) = run T (step T st l) r.
Proof. reflexivity. Qed.

Lemma run_data1 body : forall st,
  data1 (run T st body) = data1 st ++ before_from T (current_time st) body.
Proof.
  induction body as [|l r IH]; intros st; simpl.
  - now rewrite app_nil_r.
  - change (fold_left (step T) r (step T st l)) with (run T (step T st l) r).
    rewrite IH. unfold step.
    destruct (advance (current_time st) l <=? T); simpl.
    + now rewrite <- app_assoc.
    + reflexivity.
Qed.

Lemma run_data2 body : forall st,
  data2 (run T st body) = data2 st ++ after_from T (current_time st) body.
Proof.
  induction body as [|l r IH]; intros st; simpl.
  - now rewrite app_nil_r.
  - change (fold_left (step T) r (step T st l)) with (run T (step T st l) r).
    rewrite IH. unfold step.
    destruct (advance (current_time st) l <=? T); simpl.
    + reflexivity.
    + now rewrite <- app_assoc.
Qed.

Lemma run_current_time body : forall st,
  current_time (run T st body) = time_after (current_time st) body.
Proof.
  induction body as [|l r IH]; intros st; simpl; [reflexivity|].
  change (fold_left (step T) r (step T st l)) with (run T (step T st l) r).
  rewrite IH. unfold step.
  destruct (advance (current_time st) l <=? T); reflexivity.
Qed.

Lemma route_data1 body : data1 (route T body) = before_from T 0 body.
Proof. unfold route. now rewrite run_data1. Qed.

Lemma route_data2 body : data2 (route T body) = after_from T 0 body.
Proof. unfold route. now rewrite run_data2. Qed.

Lemma from_interleaved body : forall c,
  Interleaved (before_from T c body) (after_from T c body) body.
Proof.
  induction body as [|l r IH]; intros c; simpl.
  - constructor.
  - destruct (advance c l <=? T); constructor; apply IH.
Qed.

(** Once the clock is past [T] and every later timestamp is past [T] too,
    everything goes to the second partition. *)
Lemma late_all_after body : forall c,
  T < c -> Forall (fun t => T < t) (timestamps body) ->
  before_from T c body = [] /\ after_from T c body = body.
Proof.
  induction body as [|l r IH]; intros c Hc Hts; simpl; [now split|].
  simpl in Hts. rewrite advance_line_time.
  destruct (line_time l) as [t|].
  - inversion Hts as [|? ? Ht Hr]; subst.
    destruct (Z.leb_spec t T); [lia|].
    destruct (IH t Ht Hr) as [Hb Ha]. rewrite Hb, Ha. now split.
  - destruct (Z.leb_spec c T); [lia|].
    destruct (IH c Hc Hts) as [Hb Ha]. rewrite Hb, Ha. now split.
Qed.

End Loop.

(** ** Routing of single lines and of timestamp groups *)

Section Routing.

Variable T : Z.

(** What the loop does with a whole [body] from any state: it only appends,
    and what it appends is an interleaving of [body]. *)
Lemma run_appends st body :
  exists b a,
    data1 (run T st body) = data1 st ++ b /\
    data2 (run T st body) = data2 st ++ a /\
    Interleaved b a body.
Proof.
  exists (before_from T (current_time st) body),
         (after_from T (current_time st) body).
  rewrite run_data1, run_data2. auto using from_interleaved.
Qed.

Lemma step_timestamp st l t :
  line_time l = Some t ->
  step T st l =
    if t <=? T then
      {| data1 := data1 st ++ [l]; data2 := data2 st;
         current_time := t; split_occurred := split_occurred st |}
    else
      {| data1 := data1 st; data2 := data2 st ++ [l];
         current_time := t; split_occurred := true |}.
Proof.
  intros H. unfold step. rewrite (advance_timestamp _ _ _ H). reflexivity.
Qed.

Lemma step_other st l :
  not_timestamp l ->
  step T st l =
    if current_time st <=? T then
      {| data1 := data1 st ++ [l]; data2 := data2 st;
         current_time := current_time st;
         split_occurred := split_occurred st |}
    else
      {| data1 := data1 st; data2 := data2 st ++ [l];
         current_time := current_time st; split_occurred := true |}.
Proof.
  intros H. unfold step. rewrite (advance_other _ _ H). reflexivity.
Qed.

(** A run of lines that do not move the clock, while the clock is at or
    below [T]. *)
Lemma run_group_before grp : forall st,
  current_time st <= T -> Forall not_timestamp grp ->
  run T st grp =
    {| data1 := data1 st ++ grp; data2 := data2 st;
       current_time := current_time st;
       split_occurred := split_occurred st |}.
Proof.
  induction grp as [|l r IH]; intros st Hc Hg.
  - destruct st; simpl. now rewrite app_nil_r.
  - inversion Hg as [|? ? Hl Hr]; subst.
    rewrite run_cons, (step_other _ _ Hl).
    destruct (Z.leb_spec (current_time st) T); [|lia].
    rewrite IH by (cbn; first [lia | assumption]). simpl.
    now rewrite <- app_assoc.
Qed.

(** The same while the clock is past [T]. *)
Lemma run_group_after grp : forall st,
  T < current_time st -> split_occurred st = true ->
  Forall not_timestamp grp ->
  run T st grp =
    {| data1 := data1 st; data2 := data2 st ++ grp;
       current_time := current_time st; split_occurred := true |}.
Proof.
  induction grp as [|l r IH]; intros st Hc Hs Hg.
  - destruct st; simpl in *. subst. now rewrite app_nil_r.
  - inversion Hg as [|? ? Hl Hr]; subst.
    rewrite run_cons, (step_other _ _ Hl).
    destruct (Z.leb_spec (current_time st) T); [lia|].
    rewrite IH by (cbn; first [lia | assumption | reflexivity]). simpl.
    now rewrite <- app_assoc.
Qed.

End Routing.

(** C2. A timestamp line whose parsed value is [t] is appended to the first
    partition when [t <= T] and to the second one otherwise, right behind
    what the lines before it put there, and it stays there to the end of the
    loop. For the body [#100, 1!, #200, 1!], split time 100 gives
    [#100, 1!] and [#200, 1!]; split time 99 gives nothing and the whole
    body. *)
Theorem timestamp_line_routed_by_value :
  (forall T pre l post t,
     line_time l = Some t ->
     let st := route T pre in
     route T (pre ++ l :: post) =
       run T
         (if t <=? T then
            {| data1 := data1 st ++ [l]; data2 := data2 st;
               current_time := t; split_occurred := split_occurred st |}
          else
            {| data1 := data1 st; data2 := data2 st ++ [l];
               current_time := t; split_occurred := true |})
         post /\
     exists b a,
       data1 (route T (pre ++ l :: post)) =
         data1 st ++ (if t <=? T then [l] else []) ++ b /\
       data2 (route T (pre ++ l :: post)) =
         data2 st ++ (if t <=? T then [] else [l]) ++ a /\
       Interleaved b a post) /\
  (data1 (route 100 body_100_200) = [ln "#100"; ln "1!"] /\
   data2 (route 100 body_100_200) = [ln "#200"; ln "1!"]) /\
  (data1 (route 99 body_100_200) = [] /\
   data2 (route 99 body_100_200) = body_100_200).
Proof.
  split; [|repeat split; reflexivity].
  intros T pre l post t Ht st.
  assert (E : route T (pre ++ l :: post) = run T (step T st l) post).
  { unfold route. now rewrite run_app, run_cons. }
  rewrite E, (step_timestamp T st l t Ht). split; [reflexivity|].
  destruct (t <=? T);
    match goal with |- context [run T ?s post] =>
      destruct (run_appends T s post) as (b & a & H1 & H2 & HI) end;
    exists b, a; rewrite H1, H2; simpl; rewrite <- ?app_assoc; auto.
Qed.

Lemma timestamp_line_routed_by_value_witness :
  line_time (ln "#200") = Some 200 /\
  data1 (route 100 ([ln "#100"; ln "1!"] ++ ln "#200" :: [ln "1!"])) =
    [ln "#100"; ln "1!"] /\
  data2 (route 100 ([ln "#100"; ln "1!"] ++ ln "#200" :: [ln "1!"])) =
    [ln "#200"; ln "1!"].
Proof.
  assert (H : line_time (ln "#200") = Some 200) by reflexivity.
  split; [exact H|].
  destruct (proj1 timestamp_line_routed_by_value 100
              [ln "#100"; ln "1!"] (ln "#200") [ln "1!"] 200 H) as [E _].
  rewrite E. split; reflexivity.
Defined.

(** C3. Every line that follows a valid timestamp line without being one
    itself goes to the partition of that timestamp line: the timestamp line
    and the lines it governs are appended to one partition as one unbroken
    block. *)
Theorem group_follows_its_timestamp T pre ts grp post t :
  line_time ts = Some t ->
  Forall not_timestamp grp ->
  let st := route T pre in
  route T (pre ++ ts :: grp ++ post) =
    run T
      (if t <=? T then
         {| data1 := data1 st ++ ts :: grp; data2 := data2 st;
            current_time := t; split_occurred := split_occurred st |}
       else
         {| data1 := data1 st; data2 := data2 st ++ ts :: grp;
            current_time := t; split_occurred := true |})
      post /\
  exists b a,
    data1 (route T (pre ++ ts :: grp ++ post)) =
      data1 st ++ (if t <=? T then ts :: grp else []) ++ b /\
    data2 (route T (pre ++ ts :: grp ++ post)) =
      data2 st ++ (if t <=? T then [] else ts :: grp) ++ a /\
    Interleaved b a post.
Proof.
  intros Ht Hg st.
  assert (E : route T (pre ++ ts :: grp ++ post) =
              run T (run T (step T st ts) grp) post).
  { unfold route. now rewrite run_app, run_cons, run_app. }
  rewrite E, (step_timestamp T st ts t Ht).
  destruct (Z.leb_spec t T).
  - rewrite (run_group_before T grp) by (cbn; first [lia | assumption]).
    simpl.
    rewrite <- app_assoc. simpl. split; [reflexivity|].
    match goal with |- context [run T ?s post] =>
      destruct (run_appends T s post) as (b & a & H1 & H2 & HI) end.
    exists b, a. rewrite H1, H2. simpl. rewrite <- ?app_assoc. auto.
  - rewrite (run_group_after T grp)
      by (cbn; first [lia | assumption | reflexivity]).
    simpl.
    rewrite <- app_assoc. simpl. split; [reflexivity|].
    match goal with |- context [run T ?s post] =>
      destruct (run_appends T s post) as (b & a & H1 & H2 & HI) end.
    exists b, a. rewrite H1, H2. simpl. rewrite <- ?app_assoc. auto.
Qed.

Lemma group_follows_its_timestamp_witness :
  data1 (route 150 ([ln "#100"; ln "0!"] ++
                    ln "#200" :: [ln "1!"; ln "#abc"; ln "0!"] ++
                    [ln "#300"])) = [ln "#100"; ln "0!"] /\
  data2 (route 150 ([ln "#100"; ln "0!"] ++
                    ln "#200" :: [ln "1!"; ln "#abc"; ln "0!"] ++
                    [ln "#300"])) =
    [ln "#200"; ln "1!"; ln "#abc"; ln "0!"; ln "#300"].
Proof.
  assert (Ht : line_time (ln "#200") = Some 200) by reflexivity.
  assert (Hg : Forall not_timestamp [ln "1!"; ln "#abc"; ln "0!"])
    by (repeat constructor).
  destruct (group_follows_its_timestamp 150 [ln "#100"; ln "0!"]
              (ln "#200") _ [ln "#300"] 200 Ht Hg) as [E _].
  rewrite E. split; reflexivity.
Defined.

(** C7. A line that starts with [#] and whose remainder [int] refuses does
    not stop the loop: the clock keeps its value and the line is appended to
    the partition the clock selects, the first one when the clock is at or
    below [T] and the second one otherwise. *)
Theorem malformed_timestamp_is_kept T pre l post :
  startswith l "#" = true ->
  int (strip (slice_from_1 l)) = Raises ValueError ->
  let st := route T pre in
  current_time (route T (pre ++ [l])) = current_time st /\
  route T (pre ++ l :: post) =
    run T
      (if current_time st <=? T then
         {| data1 := data1 st ++ [l]; data2 := data2 st;
            current_time := current_time st;
            split_occurred := split_occurred st |}
       else
         {| data1 := data1 st; data2 := data2 st ++ [l];
            current_time := current_time st; split_occurred := true |})
      post /\
  exists b a,
    data1 (route T (pre ++ l :: post)) =
      data1 st ++ (if current_time st <=? T then [l] else []) ++ b /\
    data2 (route T (pre ++ l :: post)) =
      data2 st ++ (if current_time st <=? T then [] else [l]) ++ a /\
    Interleaved b a post.
Proof.
  intros Hs Hi st.
  assert (Hl : not_timestamp l).
  { unfold not_timestamp, line_time. now rewrite Hs, Hi. }
  assert (E : forall post', route T (pre ++ l :: post') =
                            run T (step T st l) post').
  { intros post'. unfold route. now rewrite run_app, run_cons. }
  rewrite !E, (step_other T st l Hl). split; [|split; [reflexivity|]].
  - simpl. destruct (current_time st <=? T); reflexivity.
  - destruct (current_time st <=? T);
      match goal with |- context [run T ?s post] =>
        destruct (run_appends T s post) as (b & a & H1 & H2 & HI) end;
      exists b, a; rewrite H1, H2; simpl; rewrite <- ?app_assoc; auto.
Qed.

Lemma malformed_timestamp_is_kept_witness :
  (startswith (ln "#abc") "#" = true /\
   int (strip (slice_from_1 (ln "#abc"))) = Raises ValueError) /\
  current_time (route 150 ([ln "#100"; ln "1!"] ++ [ln "#abc"])) = 100 /\
  data1 (route 150 ([ln "#100"; ln "1!"] ++ ln "#abc" :: [ln "#200"])) =
    [ln "#100"; ln "1!"; ln "#abc"] /\
  data2 (route 150 ([ln "#100"; ln "1!"] ++ ln "#abc" :: [ln "#200"])) =
    [ln "#200"].
Proof.
  assert (Hs : startswith (ln "#abc") "#" = true) by reflexivity.
  assert (Hi : int (strip (slice_from_1 (ln "#abc"))) = Raises ValueError)
    by reflexivity.
  split; [split; assumption|].
  destruct (malformed_timestamp_is_kept 150 [ln "#100"; ln "1!"]
              (ln "#abc") [ln "#200"] Hs Hi) as (Hc & E & _).
  rewrite Hc, E. repeat split; reflexivity.
Defined.

(** C8. The clock starts at 0, so for a split time [T >= 0] every line in
    front of the first timestamp line is appended to the first partition and
    none of them to the second. *)
Theorem lines_before_first_timestamp_go_before T pre rest :
  0 <= T ->
  Forall not_timestamp pre ->
  current_time init = 0 /\
  route T pre =
    {| data1 := pre; data2 := []; current_time := 0;
       split_occurred := false |} /\
  route T (pre ++ rest) =
    run T {| data1 := pre; data2 := []; current_time := 0;
             split_occurred := false |} rest /\
  exists b a,
    data1 (route T (pre ++ rest)) = pre ++ b /\
    data2 (route T (pre ++ rest)) = a /\
    Interleaved b a rest.
Proof.
  intros HT Hpre.
  assert (E : route T pre =
              {| data1 := pre; data2 := []; current_time := 0;
                 split_occurred := false |}).
  { unfold route. rewrite (run_group_before T pre init); auto. }
  split; [reflexivity|]. split; [exact E|].
  assert (E' : route T (pre ++ rest) = run T (route T pre) rest).
  { unfold route. now rewrite run_app. }
  rewrite E', E. split; [reflexivity|].
  match goal with |- context [run T ?s rest] =>
    destruct (run_appends T s rest) as (b & a & H1 & H2 & HI) end.
  exists b, a. rewrite H1, H2. auto.
Qed.

Lemma lines_before_first_timestamp_go_before_witness :
  data1 (route 0 ([ln "1!"; ln "b101 #"; ln "#abc"] ++ [ln "#5"; ln "0!"]))
    = [ln "1!"; ln "b101 #"; ln "#abc"] /\
  data2 (route 0 ([ln "1!"; ln "b101 #"; ln "#abc"] ++ [ln "#5"; ln "0!"]))
    = [ln "#5"; ln "0!"].
Proof.
  assert (HT : 0 <= 0) by lia.
  assert (Hp : Forall not_timestamp [ln "1!"; ln "b101 #"; ln "#abc"])
    by (repeat constructor).
  destruct (lines_before_first_timestamp_go_before 0 _
              [ln "#5"; ln "0!"] HT Hp) as (_ & _ & E & _).
  rewrite E. split; reflexivity.
Defined.

(** ** Complementary subsequences *)

Lemma Interleaved_length {A : Type} (a b l : list A) :
  Interleaved a b l -> (List.length a + List.length b = List.length l)%nat.
Proof.
  induction 1; simpl; [reflexivity|congruence|].
  rewrite Nat.add_succ_r. congruence.
Qed.

(** C10. For every body and every integer split time, also with timestamps
    that go backwards or do not parse and with a negative split time, the
    two partitions are complementary subsequences of the body: each line
    goes to exactly one of them and each partition keeps the order of the
    body. Nothing is lost or doubled, although the two partitions put end to
    end need not give back the body. *)
Theorem partitions_are_complementary_subsequences :
  (forall T body,
     Interleaved (data1 (route T body)) (data2 (route T body)) body /\
     (List.length (data1 (route T body)) + List.length (data2 (route T body)) =
      List.length body)%nat) /\
  (data1 (route 150 [ln "#200"; ln "#100"]) ++
   data2 (route 150 [ln "#200"; ln "#100"]) <> [ln "#200"; ln "#100"]).
Proof.
  split; [|discriminate].
  intros T body.
  assert (H : Interleaved (data1 (route T body)) (data2 (route T body)) body).
  { rewrite route_data1, route_data2. apply from_interleaved. }
  split; [exact H|]. now apply Interleaved_length.
Qed.

(** ** Bodies whose timestamps do not go backwards *)

Lemma nondecreasing_cons t ts :
  nondecreasing (t :: ts) -> nondecreasing ts /\ Forall (fun u => t <= u) ts.
Proof.
  intros H. apply Sorted_StronglySorted in H.
  - inversion H; subst. split; [now apply StronglySorted_Sorted|assumption].
  - intros x y z. apply Z.le_trans.
Qed.

Lemma Forall_lt_of_le (T c : Z) (ts : list Z) :
  T < c -> Forall (fun u => c <= u) ts -> Forall (fun u => T < u) ts.
Proof.
  intros Hc H. eapply Forall_impl; [|exact H]. simpl. intros; lia.
Qed.

Section Contiguous.

Variables T1 T2 : Z.
Hypothesis HT : T1 <= T2.

(** With the clock at [c], either at or below the split time or at its
    initial 0 with no negative timestamp ahead, the split cuts the body in
    two at one place. *)
Lemma concat_from body : forall c,
  nondecreasing (timestamps body) ->
  c <= T1 \/ Forall (fun t => c <= t) (timestamps body) ->
  before_from T1 c body ++ after_from T1 c body = body.
Proof.
  induction body as [|l r IH]; intros c Hs Hc; simpl; [reflexivity|].
  simpl in Hs, Hc. rewrite advance_line_time.
  destruct (line_time l) as [t|].
  - apply nondecreasing_cons in Hs. destruct Hs as [Hs Hle].
    destruct (Z.leb_spec t T1).
    + simpl. f_equal. apply IH; auto.
    + destruct (late_all_after T1 r t) as [Hb Ha];
        [assumption|now apply Forall_lt_of_le with t|].
      now rewrite Hb, Ha.
  - destruct (Z.leb_spec c T1).
    + simpl. f_equal. apply IH; auto.
    + destruct Hc as [Hc|Hc]; [lia|].
      destruct (late_all_after T1 r c) as [Hb Ha];
        [assumption|now apply Forall_lt_of_le with c|].
      now rewrite Hb, Ha.
Qed.

(** Splitting at [T1] and then the second part at [T2] from a fresh clock
    agrees with splitting the whole body at [T2]. *)
Lemma resplit_from body : forall c,
  nondecreasing (timestamps body) ->
  c <= T1 \/ (c = 0 /\ Forall (fun t => 0 <= t) (timestamps body)) ->
  before_from T2 c body =
    before_from T1 c body ++ before_from T2 0 (after_from T1 c body) /\
  after_from T2 c body = after_from T2 0 (after_from T1 c body).
Proof.
  induction body as [|l r IH]; intros c Hs Hc; [now split|].
  cbn [before_from after_from]. simpl in Hs, Hc.
  destruct (line_time l) as [t|] eqn:El.
  - rewrite (advance_timestamp c l t El).
    apply nondecreasing_cons in Hs. destruct Hs as [Hs Hle].
    destruct (Z.leb_spec t T1).
    + destruct (Z.leb_spec t T2); [|lia].
      destruct (IH t Hs) as [Hb Ha]; [auto|].
      rewrite Hb, Ha. now split.
    + destruct (late_all_after T1 r t) as [Hb Ha];
        [assumption|now apply Forall_lt_of_le with t|].
      rewrite Hb, Ha. cbn [before_from after_from app].
      rewrite (advance_timestamp 0 l t El). now split.
  - rewrite (advance_other c l El).
    destruct (Z.leb_spec c T1).
    + destruct (Z.leb_spec c T2); [|lia].
      destruct (IH c Hs) as [Hb Ha]; [auto|].
      rewrite Hb, Ha. now split.
    + destruct Hc as [Hc|[Hc H0]]; [lia|]. subst c.
      destruct (late_all_after T1 r 0) as [Hb Ha];
        [assumption|now apply Forall_lt_of_le with 0|].
      rewrite Hb, Ha. cbn [before_from after_from app].
      rewrite (advance_other 0 l El). now split.
Qed.

End Contiguous.

(** The lines in front of the first timestamp line are routed by the initial
    clock 0. With the timestamps in order this matters in one corner only,
    which a split time of at least 0 never meets: a negative split time, a
    line in front of the first timestamp line, and a first timestamp at or
    below the split time. The side condition of the two theorems below
    leaves out this corner and nothing else. *)
Lemma nondecreasing_first_bound T body :
  nondecreasing (timestamps body) ->
  (forall t, first_timestamp body = Some t -> T < t) ->
  Forall (fun t => T < t) (timestamps body).
Proof.
  unfold first_timestamp. intros Hs H.
  destruct (timestamps body) as [|t ts]; [constructor|].
  apply nondecreasing_cons in Hs. destruct Hs as [_ Hle].
  specialize (H t eq_refl). constructor; [exact H|].
  now apply Forall_lt_of_le with t.
Qed.

Lemma concat_from_start T body :
  nondecreasing (timestamps body) ->
  0 <= T \/
  (forall t, first_timestamp body = Some t -> T < t) \/
  (exists l r t, body = l :: r /\ line_time l = Some t) ->
  before_from T 0 body ++ after_from T 0 body = body.
Proof.
  intros Hs [H|[H|(l & r & t & -> & Hl)]].
  - apply concat_from; auto.
  - destruct (Z.leb_spec 0 T) as [H0|H0]; [apply concat_from; auto|].
    destruct (late_all_after T body 0 H0
                (nondecreasing_first_bound T body Hs H)) as [Hb Ha].
    now rewrite Hb, Ha.
  - simpl in Hs. rewrite Hl in Hs.
    apply nondecreasing_cons in Hs. destruct Hs as [Hs Hle].
    cbn [before_from after_from]. rewrite (advance_timestamp 0 l t Hl).
    destruct (Z.leb_spec t T).
    + simpl. f_equal. apply concat_from; auto.
    + destruct (late_all_after T r t) as [Hb Ha];
        [assumption|now apply Forall_lt_of_le with t|].
      now rewrite Hb, Ha.
Qed.

Lemma resplit_head_timestamp T1 T2 l r t :
  T1 <= T2 ->
  line_time l = Some t ->
  nondecreasing (timestamps (l :: r)) ->
  before_from T2 0 (l :: r) =
    before_from T1 0 (l :: r) ++
    before_from T2 0 (after_from T1 0 (l :: r)) /\
  after_from T2 0 (l :: r) = after_from T2 0 (after_from T1 0 (l :: r)).
Proof.
  intros HT Hl Hs. simpl in Hs. rewrite Hl in Hs.
  apply nondecreasing_cons in Hs. destruct Hs as [Hs Hle].
  cbn [before_from after_from]. rewrite !(advance_timestamp 0 l t Hl).
  destruct (Z.leb_spec t T1).
  - destruct (Z.leb_spec t T2); [|lia].
    destruct (resplit_from T1 T2 HT r t Hs) as [Hb Ha]; [auto|].
    rewrite Hb, Ha. now split.
  - destruct (late_all_after T1 r t) as [Hb Ha];
      [assumption|now apply Forall_lt_of_le with t|].
    rewrite Hb, Ha. cbn [before_from after_from app].
    rewrite (advance_timestamp 0 l t Hl). now split.
Qed.

Lemma resplit_below_zero T1 T2 body :
  T1 <= T2 -> T2 < 0 ->
  nondecreasing (timestamps body) ->
  before_from T2 0 body =
    before_from T1 0 body ++ before_from T2 0 (after_from T1 0 body) /\
  after_from T2 0 body = after_from T2 0 (after_from T1 0 body).
Proof.
  intros HT H2. induction body as [|l r IH]; intros Hs; [now split|].
  destruct (line_time l) as [t|] eqn:El.
  - now apply resplit_head_timestamp with t.
  - simpl in Hs. rewrite El in Hs. destruct (IH Hs) as [Hb Ha].
    cbn [before_from after_from]. rewrite (advance_other 0 l El).
    destruct (Z.leb_spec 0 T1); [lia|].
    destruct (Z.leb_spec 0 T2); [lia|].
    cbn [before_from after_from]. rewrite (advance_other 0 l El).
    destruct (Z.leb_spec 0 T2); [lia|].
    rewrite <- Hb, <- Ha. now split.
Qed.

Lemma resplit_from_start T1 T2 body :
  T1 <= T2 ->
  nondecreasing (timestamps body) ->
  0 <= T1 \/ T2 < 0 \/
  (forall t, first_timestamp body = Some t -> T1 < t) \/
  (exists l r t, body = l :: r /\ line_time l = Some t) ->
  before_from T2 0 body =
    before_from T1 0 body ++ before_from T2 0 (after_from T1 0 body) /\
  after_from T2 0 body = after_from T2 0 (after_from T1 0 body).
Proof.
  intros HT Hs [H|[H|[H|(l & r & t & -> & Hl)]]].
  - apply resplit_from; auto.
  - now apply resplit_below_zero.
  - destruct (Z.leb_spec 0 T1) as [H0|H0]; [apply resplit_from; auto|].
    destruct (late_all_after T1 body 0 H0
                (nondecreasing_first_bound T1 body Hs H)) as [Hb Ha].
    rewrite Hb, Ha. now split.
  - now apply resplit_head_timestamp with t.
Qed.

(** Outside the contract of the split time, which is never negative: the
    timestamps [-5, -4] do not go backwards, yet with split time [-5] the
    line in front of them is routed by the initial clock 0 to the second
    partition and the line [#-5] behind it to the first. This is the corner
    the side condition of the next theorem leaves out. *)
Lemma concatenation_broken_by_negative_timestamp :
  nondecreasing (timestamps body_negative) /\
  data1 (route (-5) body_negative) = [ln "#-5"] /\
  data2 (route (-5) body_negative) = [ln "1!"; ln "#-4"] /\
  data1 (route (-5) body_negative) ++ data2 (route (-5) body_negative)
    <> body_negative.
Proof.
  split; [|repeat split; try reflexivity; discriminate].
  unfold nondecreasing. cbn. repeat constructor. lia.
Qed.

(** C1. When the timestamp values of the body never go backwards, the first
    partition followed by the second one is the body: no line is dropped,
    doubled or moved. This holds for every split time of the contract,
    [T >= 0], whatever the timestamps are; and for a negative split time as
    well when the first timestamp is above it (as in every body without a
    negative timestamp), or when the body begins with a timestamp line. *)
Theorem concatenation_restores_body T body :
  nondecreasing (timestamps body) ->
  0 <= T \/
  (forall t, first_timestamp body = Some t -> T < t) \/
  (exists l r t, body = l :: r /\ line_time l = Some t) ->
  data1 (route T body) ++ data2 (route T body) = body.
Proof.
  intros Hs H0. rewrite route_data1, route_data2.
  now apply concat_from_start.
Qed.

Lemma concatenation_restores_body_witness :
  data1 (route 100 body_100_200) ++ data2 (route 100 body_100_200) =
    body_100_200.
Proof.
  apply concatenation_restores_body.
  - unfold nondecreasing. cbn. repeat constructor. lia.
  - left. lia.
Defined.

(** Outside the contract again, on the same body: split at [-5] and then the
    second part at 0, which is above its first timestamp [-4]; the middle
    part then holds the leading line [1!], which the split of the whole
    body at 0 keeps in front of [#-5]. This is the corner the side condition
    of the next theorem leaves out. *)
Lemma resplit_broken_by_negative_timestamp :
  let before1 := data1 (route (-5) body_negative) in
  let after1 := data2 (route (-5) body_negative) in
  let mid := data1 (route 0 after1) in
  let tail := data2 (route 0 after1) in
  nondecreasing (timestamps body_negative) /\
  -5 <= 0 /\
  first_timestamp after1 = Some (-4) /\ -4 <= 0 /\
  data1 (route 0 body_negative) = [ln "1!"; ln "#-5"; ln "#-4"] /\
  before1 ++ mid = [ln "#-5"; ln "1!"; ln "#-4"] /\
  (data1 (route 0 body_negative), data2 (route 0 body_negative))
    <> (before1 ++ mid, tail).
Proof.
  cbv zeta. split.
  { unfold nondecreasing. cbn. repeat constructor. lia. }
  repeat split; try reflexivity; try lia. discriminate.
Qed.

(** C9. Splitting composes on contiguous time ranges. Let the timestamp
    values of the body never go backwards. If splitting at [T1] gives
    [(before1, after1)], then for every [T2 >= T1] at or above the first
    timestamp of [after1], splitting [after1] at [T2] gives [(mid, tail)]
    with the split of the whole body at [T2] equal to
    [(before1 ++ mid, tail)]. This holds for every first split time of the
    contract, [T1 >= 0], whatever the timestamps are; and for a negative
    [T1] as well when [T2] is negative too, when the first timestamp is
    above [T1] (as in every body without a negative timestamp), or when the
    body begins with a timestamp line. *)
Theorem resplit_composes T1 T2 body :
  nondecreasing (timestamps body) ->
  0 <= T1 \/ T2 < 0 \/
  (forall t, first_timestamp body = Some t -> T1 < t) \/
  (exists l r t, body = l :: r /\ line_time l = Some t) ->
  T1 <= T2 ->
  (forall t, first_timestamp (data2 (route T1 body)) = Some t -> t <= T2) ->
  let before1 := data1 (route T1 body) in
  let after1 := data2 (route T1 body) in
  let mid := data1 (route T2 after1) in
  let tail := data2 (route T2 after1) in
  (data1 (route T2 body), data2 (route T2 body)) = (before1 ++ mid, tail).
Proof.
  intros Hs H0 HT _. cbv zeta. rewrite !route_data1, !route_data2.
  destruct (resplit_from_start T1 T2 body HT Hs H0) as [Hb Ha].
  now rewrite Hb, Ha.
Qed.

Lemma resplit_composes_witness :
  (data1 (route 200 body_three_groups), data2 (route 200 body_three_groups))
  = ([ln "0!"; ln "#100"; ln "1!"] ++ [ln "#200"; ln "0!"],
     [ln "#300"; ln "1!"]).
Proof.
  apply (resplit_composes 100 200 body_three_groups).
  - unfold nondecreasing. cbn. repeat constructor; lia.
  - left. lia.
  - lia.
  - intros t H. cbv in H. injection H as <-. lia.
Defined.

(** ** The header scan *)

Section HeaderScan.

Lemma closes_from_false lines i : closes_from false lines i <-> closes lines i.
Proof.
  unfold closes_from, closes. split; intros [He H]; split; auto.
  destruct H as [H|H]; [discriminate|exact H].
Qed.

Lemma closes_from_head flag line rest :
  closes_from flag (line :: rest) 0 <->
  (if has_dumpvars line then true else flag) && has_end line = true.
Proof.
  unfold closes_from, end_at, dumpvars_at. simpl. split.
  - intros [He [Hf|(j & Hj & Hd)]]; rewrite He, andb_true_r.
    + subst. now destruct (has_dumpvars line).
    + assert (j = 0)%nat by lia. subst j. simpl in Hd. now rewrite Hd.
  - intros H. apply andb_true_iff in H. destruct H as [Hf He].
    split; [exact He|].
    destruct (has_dumpvars line) eqn:Ed; [right|left; exact Hf].
    exists 0%nat. simpl. auto.
Qed.

Lemma closes_from_tail flag line rest k :
  closes_from flag (line :: rest) (S k) <->
  closes_from (if has_dumpvars line then true else flag) rest k.
Proof.
  unfold closes_from, end_at, dumpvars_at. simpl. split.
  - intros [He H]. split; [exact He|].
    destruct H as [Hf|(j & Hj & Hd)].
    + left. subst. now destruct (has_dumpvars line).
    + destruct j as [|j]; simpl in Hd.
      * left. now rewrite Hd.
      * right. exists j. split; [lia|exact Hd].
  - intros [He H]. split; [exact He|].
    destruct H as [Hf|(j & Hj & Hd)].
    + destruct (has_dumpvars line) eqn:Ed; [right|left; exact Hf].
      exists 0%nat. simpl. split; [lia|exact Ed].
    + right. exists (S j). simpl. split; [lia|exact Hd].
Qed.

(** The loop either runs off the end, and then nothing closes, or breaks
    at the first line that closes. *)
Lemma scan_header_cases lines : forall i0 flag,
  (scan_header i0 flag lines = 0%nat /\
   forall k, ~ closes_from flag lines k) \/
  (exists k,
     closes_from flag lines k /\
     (forall k', (k' < k)%nat -> ~ closes_from flag lines k') /\
     scan_header i0 flag lines = S (i0 + k)).
Proof.
  induction lines as [|line rest IH]; intros i0 flag.
  - left. split; [reflexivity|].
    intros k [He _]. unfold end_at in He. now destruct k.
  - cbn [scan_header].
    set (flag' := if has_dumpvars line then true else flag).
    destruct (flag' && has_end line) eqn:Eb.
    + right. exists 0%nat. split; [now apply closes_from_head|].
      split; [intros k' Hk; lia|]. f_equal. lia.
    + destruct (IH (S i0) flag') as [[Hz Hn]|(k & Hk & Hmin & Hr)].
      * left. split; [exact Hz|]. intros [|k] Hc.
        -- apply closes_from_head in Hc. fold flag' in Hc. congruence.
        -- apply closes_from_tail in Hc. now apply (Hn k).
      * right. exists (S k). split; [now apply closes_from_tail|].
        split; [|rewrite Hr; f_equal; lia].
        intros [|k'] Hlt Hc.
        -- apply closes_from_head in Hc. fold flag' in Hc. congruence.
        -- apply closes_from_tail in Hc. apply (Hmin k'); [lia|exact Hc].
Qed.

Lemma header_end_cases lines :
  (header_end lines = 0%nat /\ forall i, ~ closes lines i) \/
  (exists i,
     closes lines i /\
     (forall i', (i' < i)%nat -> ~ closes lines i') /\
     header_end lines = S i).
Proof.
  unfold header_end.
  destruct (scan_header_cases lines 0 false) as [[Hz Hn]|(k & Hk & Hm & Hr)].
  - left. split; [exact Hz|]. intros i Hi.
    apply (Hn i). now apply closes_from_false.
  - right. exists k. split; [now apply closes_from_false|].
    split; [|exact Hr].
    intros i' Hlt Hc. apply (Hm i' Hlt). now apply closes_from_false.
Qed.

Lemma header_end_zero_iff lines :
  header_end lines = 0%nat <-> forall i, ~ closes lines i.
Proof.
  destruct (header_end_cases lines) as [[Hz Hn]|(i & Hc & _ & Hr)].
  - split; auto.
  - split; [congruence|]. intros Hn. now destruct (Hn i).
Qed.

End HeaderScan.

(** C5 as stated fails when the dumpvars marker and an end marker share a
    line: the loop tests for the end marker on the very line that sets the
    flag and breaks there, while the first end-marker line that comes after
    a dumpvars-marker line is further down. *)
Lemma header_end_same_line_close :
  (exists j i, (j < i)%nat /\
     dumpvars_at lines_same_line_close j /\ end_at lines_same_line_close i) /\
  closes_later lines_same_line_close 2 /\
  (forall i', (i' < 2)%nat -> ~ closes_later lines_same_line_close i') /\
  header_end lines_same_line_close = 1%nat /\
  header_end lines_same_line_close <> 3%nat.
Proof.
  split; [exists 0%nat, 2%nat; repeat split; lia|].
  split; [split; [reflexivity|exists 0%nat; split; [lia|reflexivity]]|].
  split; [|split; [reflexivity|discriminate]].
  intros i' Hlt [He (j & Hj & _)].
  assert (i' = 1)%nat as -> by lia.
  vm_compute in He. discriminate.
Qed.

(** C5, amended. When some line holds the dumpvars marker and that line or a
    later one holds an end marker, the boundary is one past the first line
    that holds an end marker and is at or after a dumpvars-marker line; the
    scan stops at this first pairing. *)
Theorem header_end_first_closing lines :
  (exists j i, (j <= i)%nat /\ dumpvars_at lines j /\ end_at lines i) ->
  exists i,
    closes lines i /\
    (forall i', (i' < i)%nat -> ~ closes lines i') /\
    header_end lines = S i.
Proof.
  intros (j & i & Hji & Hd & He).
  destruct (header_end_cases lines) as [[_ Hn]|H]; [|exact H].
  destruct (Hn i). split; [exact He|]. now exists j.
Qed.

Lemma header_end_first_closing_witness :
  header_end lines_small_vcd = 7%nat /\
  exists i,
    closes lines_small_vcd i /\
    (forall i', (i' < i)%nat -> ~ closes lines_small_vcd i') /\
    header_end lines_small_vcd = S i.
Proof.
  split; [reflexivity|].
  apply header_end_first_closing.
  exists 4%nat, 6%nat. split; [lia|]. split; reflexivity.
Defined.

(** ** The two outputs *)

Lemma string_app_nil_r (s : string) : (s ++ "")%string = s.
Proof. induction s as [|c s IH]; simpl; [reflexivity|now rewrite IH]. Qed.

Lemma string_app_assoc (a b c : string) :
  ((a ++ b) ++ c)%string = (a ++ (b ++ c))%string.
Proof. induction a as [|x a IH]; simpl; [reflexivity|now rewrite IH]. Qed.

Lemma text_app (a b : list string) :
  text (a ++ b) = (text a ++ text b)%string.
Proof.
  induction a as [|x a IH]; simpl; [reflexivity|].
  now rewrite IH, string_app_assoc.
Qed.

Lemma writelines_text ls : forall f,
  writelines f ls = (f ++ text ls)%string.
Proof.
  induction ls as [|l r IH]; intros f; simpl.
  - now rewrite string_app_nil_r.
  - change (fold_left write r (write f l)) with (writelines (write f l) r).
    rewrite IH. unfold write. now rewrite string_app_assoc.
Qed.

Lemma header_data lines : header lines ++ data lines = lines.
Proof. apply firstn_skipn. Qed.

Lemma split_vcd_outputs lines T :
  output1 (split_vcd lines T) =
    text (header lines ++ data1 (route T (data lines))) /\
  output2 (split_vcd lines T) =
    text (header lines ++ data2 (route T (data lines))).
Proof.
  unfold split_vcd. cbn [output1 output2].
  rewrite !writelines_text, !text_app. now cbn [String.append].
Qed.

(** C4. Output 1 is the header followed by the first partition and output 2
    is the same header followed by the second partition, line for line as
    they stand in the source; the header of both is the leading section of
    the source. *)
Theorem outputs_are_header_then_partition lines T :
  let st := route T (data lines) in
  output1 (split_vcd lines T) = text (header lines ++ data1 st) /\
  output2 (split_vcd lines T) = text (header lines ++ data2 st) /\
  output1 (split_vcd lines T) =
    (text (header lines) ++ text (data1 st))%string /\
  output2 (split_vcd lines T) =
    (text (header lines) ++ text (data2 st))%string /\
  text lines = (text (header lines) ++ text (data lines))%string /\
  header lines ++ data lines = lines.
Proof.
  cbv zeta. destruct (split_vcd_outputs lines T) as [H1 H2].
  rewrite H1, H2, !text_app. repeat split; try reflexivity.
  - now rewrite <- text_app, header_data.
  - apply header_data.
Qed.

(** C6. When no line holds the dumpvars marker, or one does but neither the
    first such line nor any line after it holds an end marker, the boundary
    stays 0: the header is empty, the whole file is the body and both
    outputs hold their partition of the whole file with nothing in front. *)
Theorem unclosed_dumpvars_gives_empty_header lines T :
  (forall j, ~ dumpvars_at lines j) \/
  (exists j,
     dumpvars_at lines j /\
     (forall j', (j' < j)%nat -> ~ dumpvars_at lines j') /\
     (forall i, (j <= i)%nat -> ~ end_at lines i)) ->
  header_end lines = 0%nat /\
  header lines = [] /\
  data lines = lines /\
  output1 (split_vcd lines T) = text (data1 (route T lines)) /\
  output2 (split_vcd lines T) = text (data2 (route T lines)).
Proof.
  intros H.
  assert (Hz : header_end lines = 0%nat).
  { apply header_end_zero_iff. intros i [He (j0 & Hj0 & Hd0)].
    destruct H as [H|(j & Hd & Hmin & Hno)].
    - exact (H j0 Hd0).
    - destruct (Nat.lt_ge_cases j0 j) as [Hlt|Hge].
      + exact (Hmin j0 Hlt Hd0).
      + apply (Hno i); [lia|exact He]. }
  assert (Hh : header lines = []) by (unfold header; now rewrite Hz).
  assert (Hd : data lines = lines) by (unfold data; now rewrite Hz).
  destruct (split_vcd_outputs lines T) as [H1 H2].
  rewrite Hd, Hh in H1, H2. auto.
Qed.

Lemma unclosed_dumpvars_gives_empty_header_witness :
  header_end lines_unclosed = 0%nat /\
  header lines_unclosed = [] /\
  data lines_unclosed = lines_unclosed /\
  output1 (split_vcd lines_unclosed 0) =
    text [ln "$var wire 1 ! clk $end"; ln "$dumpvars"; ln "0!"] /\
  output2 (split_vcd lines_unclosed 0) = text [ln "#5"; ln "1!"].
Proof.
  apply (unclosed_dumpvars_gives_empty_header lines_unclosed 0).
  right. exists 1%nat. split; [reflexivity|]. split.
  - intros j' Hlt Hd. assert (j' = 0)%nat as -> by lia.
    vm_compute in Hd. discriminate.
  - intros i Hle He. unfold end_at in He.
    do 5 (destruct i as [|i]; [try lia; vm_compute in He; discriminate|]).
    now destruct i.
Defined.

(** ** More on the header scan *)

Section HeaderScanMore.

Lemma scan_header_closing_index lines : forall i flag,
  scan_header i flag lines =
    match closing_index flag lines with
    | Some k => S (i + k)
    | None => 0%nat
    end.
Proof.
  induction lines as [|line rest IH]; intros i flag; [reflexivity|].
  cbn [scan_header closing_index].
  destruct ((if has_dumpvars line then true else flag) && has_end line).
  - f_equal. lia.
  - rewrite IH. destruct (closing_index _ rest); simpl; [f_equal; lia|reflexivity].
Qed.

Lemma header_end_closing_index lines :
  header_end lines =
    match closing_index false lines with
    | Some k => S k
    | None => 0%nat
    end.
Proof. unfold header_end. now rewrite scan_header_closing_index. Qed.

(** The closing line exists, holds an end marker, and a dumpvars marker is
    on it or in front of it unless the flag was set on entry. *)
Lemma closing_index_shape lines : forall flag k,
  closing_index flag lines = Some k ->
  exists h l rest,
    lines = h ++ l :: rest /\ List.length h = k /\ has_end l = true /\
    (flag = true \/ Exists (fun d => has_dumpvars d = true) (h ++ [l])).
Proof.
  induction lines as [|line rest IH]; intros flag k H; [discriminate|].
  cbn [closing_index] in H.
  destruct ((if has_dumpvars line then true else flag) && has_end line) eqn:E.
  - injection H as <-. apply andb_true_iff in E. destruct E as [Ef Ee].
    exists [], line, rest. repeat split; auto.
    destruct (has_dumpvars line) eqn:Ed; [right|left; exact Ef].
    constructor. exact Ed.
  - destruct (closing_index _ rest) as [k'|] eqn:Ek; [|discriminate].
    injection H as <-.
    destruct (IH _ _ Ek) as (h & l & rest' & -> & Hlen & He & Hd).
    exists (line :: h), l, rest'. simpl. repeat split; auto.
    destruct Hd as [Hd|Hd].
    + destruct (has_dumpvars line) eqn:Ed; [right|left; exact Hd].
      now constructor.
    + right. now apply Exists_cons_tl.
Qed.

(** The scan reads nothing behind the line it breaks at. *)
Lemma closing_index_prefix lines : forall flag k other,
  closing_index flag lines = Some k ->
  closing_index flag (firstn (S k) lines ++ other) = Some k.
Proof.
  induction lines as [|line rest IH]; intros flag k other H; [discriminate|].
  cbn [closing_index] in H. cbn [firstn app closing_index].
  destruct ((if has_dumpvars line then true else flag) && has_end line) eqn:E.
  - exact H.
  - destruct (closing_index _ rest) as [k'|] eqn:Ek; [|discriminate].
    injection H as <-. now rewrite (IH _ _ other Ek).
Qed.

(** Lines without the dumpvars marker in front are passed over. *)
Lemma closing_index_skip pre rest :
  Forall (fun l => has_dumpvars l = false) pre ->
  closing_index false (pre ++ rest) =
    option_map (Nat.add (List.length pre)) (closing_index false rest).
Proof.
  induction 1 as [|l pre Hl _ IH]; simpl.
  - now destruct (closing_index false rest).
  - rewrite Hl. simpl. rewrite IH.
    now destruct (closing_index false rest).
Qed.

(** A scan that finds nothing with the flag set finds nothing without. *)
Lemma closing_index_flag lines : forall flag,
  closing_index true lines = None -> closing_index flag lines = None.
Proof.
  induction lines as [|line rest IH]; intros flag H; [reflexivity|].
  cbn [closing_index] in *.
  destruct (has_dumpvars line).
  - exact H.
  - destruct flag; [exact H|]. simpl in *.
    destruct (has_end line); [discriminate|].
    destruct (closing_index true rest) eqn:E; [discriminate|].
    now rewrite (IH false).
Qed.

(** A scan that finds nothing in [l] finds nothing in a subsequence. *)
Lemma closing_index_subsequence (a b l : list string) :
  Interleaved a b l ->
  forall flag, closing_index flag l = None -> closing_index flag a = None.
Proof.
  induction 1 as [|x a b l _ IH|x a b l _ IH]; intros flag H.
  - reflexivity.
  - cbn [closing_index] in *.
    destruct ((if has_dumpvars x then true else flag) && has_end x);
      [discriminate|].
    destruct (closing_index _ l) eqn:E; [discriminate|].
    now rewrite (IH _ E).
  - cbn [closing_index] in H.
    destruct ((if has_dumpvars x then true else flag) && has_end x);
      [discriminate|].
    destruct (closing_index _ l) eqn:E; [discriminate|].
    destruct (has_dumpvars x).
    + apply closing_index_flag. now apply IH.
    + now apply IH.
Qed.

Lemma firstn_skipn_middle (h : list string) l rest :
  firstn (S (List.length h)) (h ++ l :: rest) = h ++ [l] /\
  skipn (S (List.length h)) (h ++ l :: rest) = rest.
Proof.
  induction h as [|x h [IH1 IH2]]; [now split|].
  split.
  - change (firstn (S (List.length (x :: h))) ((x :: h) ++ l :: rest))
      with (x :: firstn (S (List.length h)) (h ++ l :: rest)).
    now rewrite IH1.
  - exact IH2.
Qed.

(** The header and the body when the scan breaks, and when it does not. *)
Lemma header_data_cases lines :
  (closing_index false lines = None /\ header_end lines = 0%nat /\
   header lines = [] /\ data lines = lines) \/
  (exists h l rest,
     lines = h ++ l :: rest /\
     closing_index false lines = Some (List.length h) /\
     header_end lines = S (List.length h) /\
     header lines = h ++ [l] /\ data lines = rest /\
     has_end l = true /\
     Exists (fun d => has_dumpvars d = true) (h ++ [l])).
Proof.
  unfold header, data. rewrite header_end_closing_index.
  destruct (closing_index false lines) as [k|] eqn:E.
  - right.
    destruct (closing_index_shape _ _ _ E)
      as (h & l & rest & -> & <- & He & Hd).
    destruct Hd as [Hd|Hd]; [discriminate|].
    destruct (firstn_skipn_middle h l rest) as [H1 H2].
    exists h, l, rest. rewrite H1, H2. repeat split; auto.
  - left. repeat split; reflexivity.
Qed.

End HeaderScanMore.

(** X1. The boundary never exceeds the number of lines, so both slices are
    in range; and a header that is not empty ends with a line that holds an
    end marker and has a line that holds the dumpvars marker. *)
Theorem header_is_closed_dumpvars_section lines :
  (header_end lines <= List.length lines)%nat /\
  List.length (header lines) = header_end lines /\
  (header lines <> [] ->
   exists h l,
     header lines = h ++ [l] /\ has_end l = true /\
     Exists (fun d => has_dumpvars d = true) (header lines)).
Proof.
  destruct (header_data_cases lines)
    as [(_ & Hz & Hh & _)|(h & l & rest & -> & _ & Hz & Hh & _ & He & Hd)];
    rewrite Hz, Hh.
  - simpl. repeat split; try lia. intros H. now destruct H.
  - rewrite !length_app. simpl. repeat split; try lia.
    intros _. exists h, l. auto.
Qed.

Lemma header_is_closed_dumpvars_section_witness :
  exists h l,
    header lines_small_vcd = h ++ [l] /\ has_end l = true /\
    Exists (fun d => has_dumpvars d = true) (header lines_small_vcd).
Proof.
  apply (proj2 (proj2 (header_is_closed_dumpvars_section lines_small_vcd))).
  discriminate.
Defined.

(** X2. The scan stops at the line that closes the header: whatever follows
    the header, the boundary, the header and the body come out the same. *)
Theorem header_end_ignores_body lines other :
  header_end lines <> 0%nat ->
  header_end (header lines ++ other) = header_end lines /\
  header (header lines ++ other) = header lines /\
  data (header lines ++ other) = other.
Proof.
  intros Hne.
  destruct (header_data_cases lines)
    as [(_ & Hz & _)|(h & l & rest & Hl & Hc & Hz & Hh & _)];
    [contradiction|].
  assert (Hc' : closing_index false (header lines ++ other) =
                Some (List.length h)).
  { unfold header. rewrite Hz. now apply closing_index_prefix. }
  rewrite Hh in *.
  replace ((h ++ [l]) ++ other) with (h ++ l :: other) in *
    by (now rewrite <- app_assoc).
  assert (He : header_end (h ++ l :: other) = S (List.length h)).
  { now rewrite header_end_closing_index, Hc'. }
  destruct (firstn_skipn_middle h l other) as [H1 H2].
  unfold header, data. rewrite He, Hz, H1, H2. auto.
Qed.

Lemma header_end_ignores_body_witness :
  header_end (header lines_small_vcd ++ [ln "#7"; ln "$end"]) = 7%nat /\
  data (header lines_small_vcd ++ [ln "#7"; ln "$end"]) =
    [ln "#7"; ln "$end"].
Proof.
  assert (H : header_end lines_small_vcd <> 0%nat) by discriminate.
  destruct (header_end_ignores_body lines_small_vcd
              [ln "#7"; ln "$end"] H) as (H1 & _ & H3).
  rewrite H1, H3. split; reflexivity.
Defined.

(** X3. Lines in front of the first dumpvars marker do not close the
    header, whatever end markers they hold: the scan passes over them and
    the boundary is theirs plus that of the rest, or 0 when the rest has
    none. *)
Theorem header_end_skips_declarations pre rest :
  Forall (fun l => has_dumpvars l = false) pre ->
  header_end (pre ++ rest) =
    if (header_end rest =? 0)%nat then 0%nat
    else (List.length pre + header_end rest)%nat.
Proof.
  intros H. rewrite !header_end_closing_index, (closing_index_skip _ _ H).
  destruct (closing_index false rest); simpl; [|reflexivity].
  now rewrite Nat.add_succ_r.
Qed.

Lemma header_end_skips_declarations_witness :
  header_end ([ln "$var wire 1 ! clk $end"; ln "$enddefinitions $end"] ++
              [ln "$dumpvars"; ln "0!"; ln "$end"; ln "#0"]) = 5%nat.
Proof.
  rewrite header_end_skips_declarations; [reflexivity|].
  repeat constructor.
Defined.

(** ** More on the routing loop *)

Section PickFacts.

Lemma before_from_pick T body : forall c,
  before_from T c body = pick (fun x => x <=? T) c body.
Proof.
  induction body as [|l r IH]; intros c; simpl; [reflexivity|].
  now rewrite !IH.
Qed.

Lemma after_from_pick T body : forall c,
  after_from T c body = pick (fun x => negb (x <=? T)) c body.
Proof.
  induction body as [|l r IH]; intros c; simpl; [reflexivity|].
  rewrite !IH. now destruct (advance c l <=? T).
Qed.

Lemma pick_ext P Q body :
  (forall x, P x = Q x) -> forall c, pick P c body = pick Q c body.
Proof.
  intros H. induction body as [|l r IH]; intros c; simpl; [reflexivity|].
  now rewrite H, IH.
Qed.

Lemma pick_none P body :
  (forall x, P x = false) -> forall c, pick P c body = [].
Proof.
  intros H. induction body as [|l r IH]; intros c; simpl; [reflexivity|].
  now rewrite H, IH.
Qed.

Lemma pick_all P body : forall c,
  (forall x, In x (c :: timestamps body) -> P x = true) ->
  pick P c body = body.
Proof.
  induction body as [|l r IH]; intros c H; simpl; [reflexivity|].
  simpl in H. rewrite advance_line_time in *.
  destruct (line_time l) as [t|].
  - rewrite (H t) by (simpl; auto). f_equal. apply IH.
    intros x Hx. apply H. now right.
  - rewrite (H c) by (simpl; auto). f_equal. apply IH. exact H.
Qed.

(** Picking from what was picked: a line that is picked meets the same
    clock when the loop runs over the picked lines only, because the line
    that set its clock was picked with it. *)
Lemma pick_pick P Q body : forall c c0,
  c0 = c \/ P c = false ->
  pick Q c0 (pick P c body) = pick (fun x => P x && Q x) c body.
Proof.
  induction body as [|l r IH]; intros c c0 H; simpl; [reflexivity|].
  destruct (P (advance c l)) eqn:EP; simpl.
  - assert (E : advance c0 l = advance c l).
    { rewrite !advance_line_time in *.
      destruct (line_time l); [reflexivity|].
      destruct H as [H|H]; [exact H|congruence]. }
    rewrite E. destruct (Q (advance c l)); rewrite IH; auto.
  - apply IH. now right.
Qed.

Lemma pick_interleaved P Q R body :
  (forall x, R x = P x || Q x) -> (forall x, P x && Q x = false) ->
  forall c, Interleaved (pick P c body) (pick Q c body) (pick R c body).
Proof.
  intros HR HPQ. induction body as [|l r IH]; intros c; simpl.
  - constructor.
  - rewrite HR. specialize (HPQ (advance c l)).
    destruct (P (advance c l)), (Q (advance c l)); simpl;
      try discriminate; try constructor; apply IH.
Qed.

Lemma last_cons_default (t c : Z) (ts : list Z) :
  last (t :: ts) c = last ts t.
Proof.
  revert t c. induction ts as [|u ts IH]; intros t c; [reflexivity|].
  change (last (t :: u :: ts) c) with (last (u :: ts) c).
  now rewrite !IH.
Qed.

Lemma time_after_last body : forall c,
  time_after c body = last (timestamps body) c.
Proof.
  induction body as [|l r IH]; intros c; simpl; [reflexivity|].
  rewrite IH, advance_line_time.
  destruct (line_time l) as [t|]; [|reflexivity].
  now rewrite last_cons_default.
Qed.

End PickFacts.

(** X4. After the loop the clock holds the value of the last timestamp line
    that parsed, or 0 when the body has none. *)
Theorem final_clock_is_last_timestamp T body :
  current_time (route T body) = last (timestamps body) 0.
Proof.
  unfold route. rewrite run_current_time. apply time_after_last.
Qed.

(** X5. Every line is routed by the latest timestamp value up to and
    including the line itself, 0 when there is none: the line goes to the
    first partition when that value is at most [T], else to the second. *)
Theorem routed_by_latest_timestamp T pre l post :
  let c := last (timestamps (pre ++ [l])) 0 in
  exists b a,
    data1 (route T (pre ++ l :: post)) =
      data1 (route T pre) ++ (if c <=? T then [l] else []) ++ b /\
    data2 (route T (pre ++ l :: post)) =
      data2 (route T pre) ++ (if c <=? T then [] else [l]) ++ a /\
    Interleaved b a post.
Proof.
  intros c.
  assert (Hc : advance (current_time (route T pre)) l = c).
  { unfold c, route.
    rewrite run_current_time, <- time_after_last.
    change (current_time init) with 0.
    clear. generalize 0. induction pre as [|x pre IH]; intros z; simpl.
    - reflexivity.
    - apply IH. }
  assert (E : route T (pre ++ l :: post) =
              run T (step T (route T pre) l) post).
  { unfold route. now rewrite run_app, run_cons. }
  rewrite E. unfold step. rewrite Hc.
  destruct (c <=? T);
    match goal with |- context [run T ?s post] =>
      destruct (run_appends T s post) as (b & a & H1 & H2 & HI) end;
    exists b, a; rewrite H1, H2; simpl; rewrite <- ?app_assoc; auto.
Qed.

(** X6. For any body and [T1 <= T2], splitting the second part of the split
    at [T1] again at [T2] gives the second part of the split at [T2], and
    the first part of the split at [T2] is the first part of the split at
    [T1] interleaved with the middle part. No order of the timestamps is
    needed. *)
Theorem resplit_of_any_body T1 T2 body :
  T1 <= T2 ->
  let before1 := data1 (route T1 body) in
  let after1 := data2 (route T1 body) in
  let mid := data1 (route T2 after1) in
  let tail := data2 (route T2 after1) in
  tail = data2 (route T2 body) /\
  Interleaved before1 mid (data1 (route T2 body)).
Proof.
  intros HT. cbv zeta.
  rewrite !route_data1, !route_data2, !before_from_pick, !after_from_pick.
  rewrite !pick_pick by auto. split.
  - apply pick_ext. intros x.
    destruct (Z.leb_spec x T1), (Z.leb_spec x T2); simpl; auto; lia.
  - apply pick_interleaved; intros x;
      destruct (Z.leb_spec x T1), (Z.leb_spec x T2); simpl; auto; lia.
Qed.

Lemma resplit_of_any_body_witness :
  data2 (route 250 (data2 (route 150 body_backwards))) =
    data2 (route 250 body_backwards) /\
  Interleaved (data1 (route 150 body_backwards))
    (data1 (route 250 (data2 (route 150 body_backwards))))
    (data1 (route 250 body_backwards)).
Proof.
  apply (resplit_of_any_body 150 250 body_backwards). lia.
Defined.

(** X7. Splits at two times commute: the part of the body on a given side
    of [T1] and on a given side of [T2] is the same whichever split is made
    first. *)
Theorem splits_commute T1 T2 body :
  data1 (route T1 (data1 (route T2 body))) =
    data1 (route T2 (data1 (route T1 body))) /\
  data1 (route T1 (data2 (route T2 body))) =
    data2 (route T2 (data1 (route T1 body))) /\
  data2 (route T1 (data2 (route T2 body))) =
    data2 (route T2 (data2 (route T1 body))).
Proof.
  rewrite !route_data1, !route_data2, !before_from_pick, !after_from_pick.
  rewrite !pick_pick by auto.
  repeat split; apply pick_ext; intros x;
    destruct (x <=? T1), (x <=? T2); reflexivity.
Qed.

(** X8. Splitting a part again at the same time changes nothing: the first
    part stays whole in the first partition and the second part stays whole
    in the second. *)
Theorem split_is_idempotent T body :
  data1 (route T (data1 (route T body))) = data1 (route T body) /\
  data2 (route T (data1 (route T body))) = [] /\
  data1 (route T (data2 (route T body))) = [] /\
  data2 (route T (data2 (route T body))) = data2 (route T body).
Proof.
  rewrite !route_data1, !route_data2, !before_from_pick, !after_from_pick.
  rewrite !pick_pick by auto.
  repeat split;
    first [ apply pick_none | apply pick_ext ]; intros x;
    destruct (x <=? T); reflexivity.
Qed.

(** X9. A split time at or above 0 and above every timestamp of the body
    puts the whole body into the first partition and leaves the second one
    empty. *)
Theorem late_split_keeps_all_before T body :
  0 <= T ->
  Forall (fun t => t <= T) (timestamps body) ->
  data1 (route T body) = body /\ data2 (route T body) = [].
Proof.
  intros H0 Hts.
  assert (H1 : data1 (route T body) = body).
  { rewrite route_data1, before_from_pick. apply pick_all.
    intros x [<-|Hx]; [now apply Z.leb_le|].
    apply Z.leb_le. rewrite Forall_forall in Hts. now apply Hts. }
  split; [exact H1|].
  pose proof (from_interleaved T body 0) as HI.
  apply Interleaved_length in HI.
  rewrite <- route_data1, <- route_data2, H1 in HI.
  destruct (data2 (route T body)); [reflexivity|simpl in HI; lia].
Qed.

Lemma late_split_keeps_all_before_witness :
  data1 (route 300 body_backwards) = body_backwards /\
  data2 (route 300 body_backwards) = [].
Proof.
  apply late_split_keeps_all_before; [lia|].
  cbn. repeat constructor; lia.
Defined.

(** X10. A negative split time below every timestamp of the body puts the
    whole body into the second partition, the lines in front of the first
    timestamp included. *)
Theorem early_split_moves_all_after T body :
  T < 0 ->
  Forall (fun t => T < t) (timestamps body) ->
  data1 (route T body) = [] /\ data2 (route T body) = body.
Proof.
  intros H0 Hts. rewrite route_data1, route_data2.
  now apply late_all_after.
Qed.

Lemma early_split_moves_all_after_witness :
  data1 (route (-1) body_three_groups) = [] /\
  data2 (route (-1) body_three_groups) = body_three_groups.
Proof.
  apply early_split_moves_all_after; [lia|].
  cbn. repeat constructor; lia.
Defined.

Lemma run_split_occurred T body : forall st,
  split_occurred (run T st body) =
    split_occurred st ||
    match after_from T (current_time st) body with
    | [] => false
    | _ :: _ => true
    end.
Proof.
  induction body as [|l r IH]; intros st.
  - simpl. now rewrite orb_false_r.
  - rewrite run_cons, IH. unfold step. cbn [after_from].
    destruct (advance (current_time st) l <=? T); simpl.
    + reflexivity.
    + now rewrite orb_true_r.
Qed.

(** X11. After the loop the flag [split_occurred] is set exactly when the
    second partition has a line. *)
Theorem split_occurred_iff_after_nonempty T body :
  split_occurred (route T body) = true <-> data2 (route T body) <> [].
Proof.
  unfold route at 1. rewrite run_split_occurred, route_data2. simpl.
  destruct (after_from T 0 body); split; intros H; congruence.
Qed.

(** ** Lines and text *)

Section LinesAndText.

Lemma string_length_app (a b : string) :
  String.length (a ++ b) = (String.length a + String.length b)%nat.
Proof. induction a as [|c a IH]; simpl; [reflexivity|now rewrite IH]. Qed.

Lemma text_length_interleaved (a b l : list string) :
  Interleaved a b l ->
  (String.length (text a) + String.length (text b))%nat =
    String.length (text l).
Proof.
  induction 1 as [|x a b l _ IH|x a b l _ IH]; simpl;
    rewrite ?string_length_app; lia.
Qed.

Lemma Interleaved_app_left (h a b l : list string) :
  Interleaved a b l -> Interleaved (h ++ a) b (h ++ l).
Proof. intros H. induction h; simpl; [exact H|now constructor]. Qed.

Lemma Interleaved_nil_inv (a b : list string) :
  Interleaved a b [] -> a = [] /\ b = [].
Proof. inversion 1. now split. Qed.

Lemma lines_wf_tail l r : lines_wf (l :: r) = true -> lines_wf r = true.
Proof.
  destruct r as [|x r]; [reflexivity|].
  cbn [lines_wf]. intros H. now apply andb_true_iff in H.
Qed.

Lemma lines_wf_head l x r : lines_wf (l :: x :: r) = true -> ends_line l = true.
Proof. cbn [lines_wf]. intros H. now apply andb_true_iff in H. Qed.

Lemma lines_wf_cons l r :
  ends_line l = true -> lines_wf r = true -> lines_wf (l :: r) = true.
Proof.
  intros Hl Hr. destruct r as [|x r]; cbn [lines_wf] in *.
  - now rewrite Hl.
  - now rewrite Hl, Hr.
Qed.

(** A subsequence of a well-formed list of lines is well formed: a last
    line without LF can only be last in it. *)
Lemma lines_wf_subsequence (a b l : list string) :
  Interleaved a b l -> lines_wf l = true -> lines_wf a = true.
Proof.
  induction 1 as [|x a b l HI IH|x a b l HI IH]; intros Hwf.
  - reflexivity.
  - destruct l as [|y l].
    + apply Interleaved_nil_inv in HI. destruct HI as [-> _]. exact Hwf.
    + apply lines_wf_cons.
      * exact (lines_wf_head _ _ _ Hwf).
      * apply IH. exact (lines_wf_tail _ _ Hwf).
  - apply IH. exact (lines_wf_tail _ _ Hwf).
Qed.

Lemma split_lines_wf s : lines_wf (split_lines s) = true.
Proof.
  induction s as [|c s IH]; [reflexivity|].
  cbn [split_lines]. destruct (is_newline c) eqn:Ec.
  - apply lines_wf_cons; [|exact IH]. simpl. now rewrite Ec.
  - destruct (split_lines s) as [|l ls].
    + simpl. unfold open_line. simpl. now rewrite Ec.
    + destruct ls as [|x ls]; cbn [lines_wf] in *.
      * unfold open_line in *. cbn [ends_line no_newline]. rewrite Ec.
        simpl. apply orb_true_iff in IH. destruct IH as [->|H]; [reflexivity|].
        apply andb_true_iff in H. destruct H as [-> _].
        now rewrite orb_true_r.
      * cbn [ends_line]. now rewrite Ec.
Qed.

Lemma split_lines_ends_line l : forall rest,
  ends_line l = true -> split_lines (l ++ rest) = l :: split_lines rest.
Proof.
  induction l as [|c l IH]; intros rest H; [discriminate|].
  cbn [ends_line] in H. cbn [String.append split_lines].
  destruct (is_newline c).
  - apply String.eqb_eq in H. now subst.
  - now rewrite (IH rest H).
Qed.

Lemma split_lines_open_line l : open_line l = true -> split_lines l = [l].
Proof.
  unfold open_line. induction l as [|c l IH]; intros H; [discriminate|].
  cbn [no_newline] in H. rewrite andb_true_r in H.
  apply andb_true_iff in H. destruct H as [Hc Hl].
  cbn [split_lines]. apply negb_true_iff in Hc. rewrite Hc.
  destruct l as [|d l]; [reflexivity|].
  rewrite IH; [reflexivity|]. now rewrite Hl.
Qed.

Lemma split_lines_text ls : lines_wf ls = true -> split_lines (text ls) = ls.
Proof.
  induction ls as [|l r IH]; intros H; [reflexivity|].
  destruct r as [|x r].
  - cbn [text fold_right]. rewrite string_app_nil_r.
    cbn [lines_wf] in H. apply orb_true_iff in H. destruct H as [H|H].
    + rewrite <- (string_app_nil_r l) at 1.
      now rewrite (split_lines_ends_line l EmptyString H).
    + now apply split_lines_open_line.
  - change (text (l :: x :: r)) with (l ++ text (x :: r))%string.
    rewrite (split_lines_ends_line l _ (lines_wf_head _ _ _ H)).
    now rewrite (IH (lines_wf_tail _ _ H)).
Qed.

(** A subsequence of the body behind the header scans to the same header. *)
Lemma header_of_subsequence lines d d' :
  Interleaved d d' (data lines) ->
  header (header lines ++ d) = header lines /\
  data (header lines ++ d) = d.
Proof.
  intros HI.
  destruct (header_data_cases lines)
    as [(Hc & Hz & Hh & Hd)|(h & l & rest & Hl & Hc & Hz & Hh & Hd & _)].
  - rewrite Hh, Hd in *. simpl.
    assert (E : header_end d = 0%nat).
    { rewrite header_end_closing_index.
      now rewrite (closing_index_subsequence _ _ _ HI false Hc). }
    unfold header, data. rewrite E. now split.
  - assert (Hc' : closing_index false (header lines ++ d) =
                  Some (List.length h)).
    { unfold header. rewrite Hz. now apply closing_index_prefix. }
    rewrite Hh in *.
    replace ((h ++ [l]) ++ d) with (h ++ l :: d) in *
      by (now rewrite <- app_assoc).
    assert (He : header_end (h ++ l :: d) = S (List.length h)).
    { now rewrite header_end_closing_index, Hc'. }
    destruct (firstn_skipn_middle h l d) as [H1 H2].
    unfold header, data. rewrite He, H1, H2. auto.
Qed.

Lemma route_interleaved T body :
  Interleaved (data1 (route T body)) (data2 (route T body)) body.
Proof. rewrite route_data1, route_data2. apply from_interleaved. Qed.

Lemma Interleaved_swap (a b l : list string) :
  Interleaved a b l -> Interleaved b a l.
Proof. induction 1; now constructor. Qed.

End LinesAndText.

Lemma route_again T body :
  data1 (route T (data1 (route T body))) = data1 (route T body) /\
  data2 (route T (data1 (route T body))) = [] /\
  data1 (route T (data2 (route T body))) = [] /\
  data2 (route T (data2 (route T body))) = data2 (route T body).
Proof.
  rewrite !route_data1, !route_data2, !before_from_pick, !after_from_pick.
  rewrite !pick_pick by auto.
  repeat split;
    first [ apply pick_none | apply pick_ext ]; intros x;
    destruct (x <=? T); reflexivity.
Qed.

Lemma outputs_eta (o : outputs) :
  o = {| output1 := output1 o; output2 := output2 o |}.
Proof. now destruct o. Qed.

Section NewlineTranslation.

Lemma is_newline_eq c : is_newline c = true -> c = LF.
Proof.
  unfold is_newline. intros H. apply N.eqb_eq in H.
  rewrite <- (ascii_N_embedding c), H. reflexivity.
Qed.

Lemma is_newline_not_return c : is_newline c = true -> is_return c = false.
Proof. intros H. apply is_newline_eq in H. now subst. Qed.

Lemma translate_no_return s : forall f,
  no_return (translate_newlines f s) = true.
Proof.
  induction s as [|c s IH]; intros f; [reflexivity|].
  cbn [translate_newlines]. destruct (is_return c) eqn:Ec.
  - simpl. apply IH.
  - destruct (is_newline c && f); [apply IH|].
    cbn [no_return]. now rewrite Ec, IH.
Qed.

Lemma translate_of_no_return s :
  no_return s = true -> translate_newlines false s = s.
Proof.
  induction s as [|c s IH]; intros H; [reflexivity|].
  cbn [no_return] in H. apply andb_true_iff in H. destruct H as [Hc Hs].
  apply negb_true_iff in Hc. cbn [translate_newlines].
  now rewrite Hc, andb_false_r, (IH Hs).
Qed.

(** What was stored for a text without CR reads back as that text, on
    either platform. *)
Lemma translate_stored sep s :
  no_return s = true -> universal_newlines (stored sep s) = s.
Proof.
  unfold universal_newlines.
  induction s as [|c s IH]; intros H; [reflexivity|].
  cbn [no_return] in H. apply andb_true_iff in H. destruct H as [Hc Hs].
  apply negb_true_iff in Hc. cbn [stored].
  destruct (is_newline c) eqn:En.
  - destruct sep.
    + cbn [translate_newlines]. now rewrite Hc, andb_false_r, (IH Hs).
    + cbn [translate_newlines]. change (is_return CR) with true.
      cbn iota. rewrite Hc, En. cbn [andb].
      rewrite (IH Hs). now rewrite (is_newline_eq c En).
  - cbn [translate_newlines]. now rewrite Hc, En, (IH Hs).
Qed.

Lemma no_return_app a b :
  no_return (a ++ b) = no_return a && no_return b.
Proof.
  induction a as [|c a IH]; simpl; [reflexivity|].
  now rewrite IH, andb_assoc.
Qed.

Lemma no_return_text ls :
  Forall (fun l => no_return l = true) ls -> no_return (text ls) = true.
Proof.
  induction 1 as [|l ls Hl _ IH]; simpl; [reflexivity|].
  now rewrite no_return_app, Hl, IH.
Qed.

Lemma split_lines_no_return s :
  no_return s = true -> Forall (fun l => no_return l = true) (split_lines s).
Proof.
  induction s as [|c s IH]; intros H; [constructor|].
  cbn [no_return] in H. apply andb_true_iff in H. destruct H as [Hc Hs].
  specialize (IH Hs). cbn [split_lines]. destruct (is_newline c).
  - constructor; [simpl; now rewrite Hc|exact IH].
  - destruct (split_lines s) as [|l ls].
    + constructor; [simpl; now rewrite Hc|constructor].
    + inversion IH as [|? ? Hl Hls]; subst.
      constructor; [simpl; now rewrite Hc, Hl|exact Hls].
Qed.

Lemma text_split_lines s : text (split_lines s) = s.
Proof.
  induction s as [|c s IH]; [reflexivity|].
  cbn [split_lines]. destruct (is_newline c).
  - simpl. now rewrite IH.
  - destruct (split_lines s) as [|l ls]; simpl in *; now rewrite <- IH.
Qed.

Lemma Interleaved_Forall (P : string -> Prop) (a b l : list string) :
  Interleaved a b l -> Forall P l -> Forall P a.
Proof.
  induction 1 as [|x a b l _ IH|x a b l _ IH]; intros H.
  - constructor.
  - inversion H; subst. constructor; auto.
  - inversion H; subst. auto.
Qed.

Lemma readlines_wf s :
  lines_wf (readlines s) = true /\
  Forall (fun l => no_return l = true) (readlines s).
Proof.
  unfold readlines, universal_newlines. split.
  - apply split_lines_wf.
  - apply split_lines_no_return, translate_no_return.
Qed.

(** Lines that are well formed and hold no CR are read back as they were
    written. *)
Lemma readlines_stored_text sep ls :
  lines_wf ls = true ->
  Forall (fun l => no_return l = true) ls ->
  readlines (stored sep (text ls)) = ls.
Proof.
  intros Hwf Hcr. unfold readlines.
  rewrite (translate_stored sep _ (no_return_text ls Hcr)).
  now apply split_lines_text.
Qed.

(** What [readlines] gives for each stored output of lines that are well
    formed and hold no CR. *)
Lemma outputs_stored_reread sep lines T :
  lines_wf lines = true ->
  Forall (fun l => no_return l = true) lines ->
  readlines (stored sep (output1 (split_vcd lines T))) =
    header lines ++ data1 (route T (data lines)) /\
  readlines (stored sep (output2 (split_vcd lines T))) =
    header lines ++ data2 (route T (data lines)).
Proof.
  intros Hwf Hcr. destruct (split_vcd_outputs lines T) as [H1 H2].
  rewrite H1, H2.
  pose proof (route_interleaved T (data lines)) as HI.
  rewrite <- (header_data lines) in Hwf at 1.
  rewrite <- (header_data lines) in Hcr at 1.
  split; apply readlines_stored_text.
  - eapply lines_wf_subsequence; [|exact Hwf].
    apply Interleaved_app_left. exact HI.
  - eapply Interleaved_Forall; [|exact Hcr].
    apply Interleaved_app_left. exact HI.
  - eapply lines_wf_subsequence; [|exact Hwf].
    apply Interleaved_app_left, Interleaved_swap. exact HI.
  - eapply Interleaved_Forall; [|exact Hcr].
    apply Interleaved_app_left, Interleaved_swap. exact HI.
Qed.

End NewlineTranslation.

(** X12. [readlines] loses nothing but the spelling of the line ends: the
    lines it returns, put end to end, are the text of the file with its
    line ends translated to LF, and are the text itself when it holds no
    CR. Each returned line is free of CR and is a complete line ending with
    its only LF, except that the last one may be a non-empty line without
    LF. *)
Theorem readlines_keeps_the_text s :
  text (readlines s) = universal_newlines s /\
  (no_return s = true -> text (readlines s) = s) /\
  lines_wf (readlines s) = true /\
  Forall (fun l => no_return l = true) (readlines s).
Proof.
  destruct (readlines_wf s) as [Hwf Hcr].
  unfold readlines in *. rewrite text_split_lines.
  repeat split; auto.
  intros H. unfold universal_newlines. now apply translate_of_no_return.
Qed.

Lemma readlines_keeps_the_text_witness :
  text (readlines (text body_100_200)) = text body_100_200.
Proof.
  apply (proj1 (proj2 (readlines_keeps_the_text (text body_100_200)))).
  reflexivity.
Defined.

(** X13. Lines written with [writelines] and read back with [readlines] are
    the same lines on either platform, when they hold no CR and are
    complete lines, the last of which may lack its LF. *)
Theorem readlines_of_written_lines sep ls :
  lines_wf ls = true ->
  Forall (fun l => no_return l = true) ls ->
  readlines (stored sep (writelines EmptyString ls)) = ls.
Proof.
  intros Hwf Hcr. rewrite writelines_text. simpl.
  now apply readlines_stored_text.
Qed.

Lemma readlines_of_written_lines_witness :
  readlines (stored SepCRLF
               (writelines EmptyString [ln "#100"; ln "1!"; "#200"])) =
    [ln "#100"; ln "1!"; "#200"].
Proof.
  apply readlines_of_written_lines; [reflexivity|].
  repeat constructor.
Defined.

(** X14. The two outputs together hold the text of the source and one more
    copy of the header, character for character: their lengths add up to
    the length of the source plus the length of the header. *)
Theorem outputs_total_size lines T :
  (String.length (output1 (split_vcd lines T)) +
   String.length (output2 (split_vcd lines T)))%nat =
  (String.length (text lines) + String.length (text (header lines)))%nat.
Proof.
  destruct (split_vcd_outputs lines T) as [H1 H2].
  rewrite H1, H2, !text_app, !string_length_app.
  pose proof (text_length_interleaved _ _ _
                (route_interleaved T (data lines))) as HI.
  assert (E : text lines = (text (header lines) ++ text (data lines))%string)
    by now rewrite <- text_app, header_data.
  rewrite E, string_length_app. lia.
Qed.

(** X15. Each output scans to the header of the source again: the header
    scan of the lines of an output gives the source header as header and
    the partition as body, also when the source header is empty. *)
Theorem output_header_rescans lines T :
  let st := route T (data lines) in
  header (header lines ++ data1 st) = header lines /\
  data (header lines ++ data1 st) = data1 st /\
  header (header lines ++ data2 st) = header lines /\
  data (header lines ++ data2 st) = data2 st.
Proof.
  cbv zeta.
  pose proof (route_interleaved T (data lines)) as HI.
  destruct (header_of_subsequence lines _ _ HI) as [H1 H2].
  destruct (header_of_subsequence lines _ _ (Interleaved_swap _ _ _ HI))
    as [H3 H4].
  auto.
Qed.

(** X16. Read back from the file it was stored in, each output of a file is
    the header lines followed by the lines of its partition, line for line,
    on either platform and whatever line ends the input has. *)
Theorem outputs_read_back sep s T :
  let lines := readlines s in
  readlines (stored sep (output1 (split_vcd lines T))) =
    header lines ++ data1 (route T (data lines)) /\
  readlines (stored sep (output2 (split_vcd lines T))) =
    header lines ++ data2 (route T (data lines)).
Proof.
  cbv zeta. destruct (readlines_wf s) as [Hwf Hcr].
  now apply outputs_stored_reread.
Qed.

(** X17. Splitting a stored output again at the same time reproduces it:
    output 1 split again gives itself and the bare header, output 2 split
    again gives the bare header and itself. *)
Theorem resplit_of_output_is_fixed sep s T :
  let o := split_vcd (readlines s) T in
  let hdr := text (header (readlines s)) in
  split_vcd (readlines (stored sep (output1 o))) T =
    {| output1 := output1 o; output2 := hdr |} /\
  split_vcd (readlines (stored sep (output2 o))) T =
    {| output1 := hdr; output2 := output2 o |}.
Proof.
  cbv zeta. set (lines := readlines s).
  destruct (readlines_wf s) as [Hwf Hcr]. fold lines in Hwf, Hcr.
  destruct (outputs_stored_reread sep lines T Hwf Hcr) as [R1 R2].
  destruct (split_vcd_outputs lines T) as [O1 O2].
  pose proof (route_interleaved T (data lines)) as HI.
  destruct (header_of_subsequence lines _ _ HI) as [H1 D1].
  destruct (header_of_subsequence lines _ _ (Interleaved_swap _ _ _ HI))
    as [H2 D2].
  destruct (route_again T (data lines)) as (A1 & A2 & A3 & A4).
  split.
  - rewrite (outputs_eta (split_vcd (readlines _) T)).
    destruct (split_vcd_outputs
                (readlines (stored sep (output1 (split_vcd lines T)))) T)
      as [P1 P2].
    rewrite P1, P2, R1, H1, D1, A1, A2, O1, app_nil_r. reflexivity.
  - rewrite (outputs_eta (split_vcd (readlines _) T)).
    destruct (split_vcd_outputs
                (readlines (stored sep (output2 (split_vcd lines T)))) T)
      as [P1 P2].
    rewrite P1, P2, R2, H2, D2, A3, A4, O2, app_nil_r. reflexivity.
Qed.

(** ** Blanks around a timestamp *)

Section Blanks.

Lemma lstrip_all_space b : all_space b = true -> lstrip b = EmptyString.
Proof.
  induction b as [|c b IH]; intros H; [reflexivity|].
  simpl in *. apply andb_true_iff in H. destruct H as [-> H]. auto.
Qed.

Lemma rstrip_all_space b : all_space b = true -> rstrip b = EmptyString.
Proof.
  induction b as [|c b IH]; intros H; [reflexivity|].
  simpl in *. apply andb_true_iff in H. destruct H as [-> H].
  now rewrite IH.
Qed.

Lemma lstrip_app_space a x :
  all_space a = true -> lstrip (a ++ x) = lstrip x.
Proof.
  induction a as [|c a IH]; intros H; [reflexivity|].
  simpl in *. apply andb_true_iff in H. destruct H as [-> H]. auto.
Qed.

Lemma rstrip_app_space x b :
  all_space b = true -> rstrip (x ++ b) = rstrip x.
Proof.
  intros H. induction x as [|c x IH]; simpl.
  - now apply rstrip_all_space.
  - now rewrite IH.
Qed.

Lemma lstrip_app s b :
  lstrip (s ++ b) =
    match lstrip s with
    | EmptyString => lstrip b
    | String c r => (String c r ++ b)%string
    end.
Proof.
  induction s as [|c s IH]; simpl; [reflexivity|].
  destruct (isspace c); [exact IH|reflexivity].
Qed.

Lemma strip_blanks a s b :
  all_space a = true -> all_space b = true ->
  strip (a ++ s ++ b) = strip s.
Proof.
  intros Ha Hb. unfold strip.
  rewrite (lstrip_app_space a _ Ha), lstrip_app.
  destruct (lstrip s) as [|c r].
  - now rewrite (lstrip_all_space b Hb).
  - now apply rstrip_app_space.
Qed.

End Blanks.

(** X21. Blanks around the number of a timestamp line do not matter, nor
    does the line terminator: the line sets the clock to the same value, or
    fails to parse in the same way, with and without them. *)
Theorem timestamp_blanks_are_ignored a s b c :
  all_space a = true ->
  all_space b = true ->
  line_time (String "#" (a ++ s ++ b)) = line_time (String "#" s) /\
  advance c (String "#" (a ++ s ++ b)) = advance c (String "#" s).
Proof.
  intros Ha Hb.
  assert (Hs : forall x, startswith (String "#" x) "#" = true).
  { intros x. unfold startswith. cbn [String.prefix].
    destruct (ascii_dec "#" "#"); [|congruence]. now destruct x. }
  unfold line_time, advance. rewrite !Hs. cbn [slice_from_1].
  now rewrite (strip_blanks a s b Ha Hb).
Qed.

Lemma timestamp_blanks_are_ignored_witness :
  line_time (String "#" (" " ++ "250" ++ nl)) = line_time "#250" /\
  advance 7 (String "#" (" " ++ "250" ++ nl)) = advance 7 "#250".
Proof. apply timestamp_blanks_are_ignored; reflexivity. Defined.
